(** * Antiderivative anti-aliasing (ADAA): the sample processors of
    [sim/writeup.py]

    The first- and second-order processors [ADAA_1] and [ADAA_2] and the
    hard-clip nonlinearity are embedded over an abstract numeric carrier
    (the operations the Python code applies to its samples).  Two carriers
    are provided: IEEE binary64 (the [np.float64] samples the script feeds to
    [process]) and the real numbers (the setting in which the specification
    states its algebraic properties).  For the behaviour across calls the
    instances are also embedded as mutable Python objects, with [process] as
    a method body over the attribute dictionary. *)

From Stdlib Require Import ZArith List Reals Lra.
From Stdlib Require Floats.PrimFloat Numbers.Cyclic.Int63.Uint63.
From Stdlib Require Floats.FloatAxioms.
From stdpp Require Import base option list strings gmap.

(** ** Numeric carrier *)

(** The operations of a Python/numpy float used by the processors.
    [of_int] is the coercion of a Python [int] that meets a float,
    [of_dec m e] is the float literal [m * 10^e] ([0.5] is [of_dec 5 (-1)],
    [1.0e-5] is [of_dec 1 (-5)]), [nabs] is [np.abs] and [nltb] is [<]. *)
Class Num (A : Type) : Type := {
  of_int : Z -> A;
  of_dec : Z -> Z -> A;
  nadd : A -> A -> A;
  nsub : A -> A -> A;
  nmul : A -> A -> A;
  ndiv : A -> A -> A;
  nabs : A -> A;
  nltb : A -> A -> bool
}.

Declare Scope num_scope.
Delimit Scope num_scope with num.
Infix "+" := nadd : num_scope.
Infix "-" := nsub : num_scope.
Infix "*" := nmul : num_scope.
Infix "/" := ndiv : num_scope.
Infix "<?" := nltb : num_scope.

(** *** Real numbers *)

Definition Rltb (a b : R) : bool := if Rlt_dec a b then true else false.

Definition R_of_dec (m e : Z) : R :=
  match e with
  | Z0 => IZR m
  | Zpos _ => IZR (m * 10 ^ e)
  | Zneg p => (IZR m / IZR (10 ^ Zpos p))%R
  end.

#[export] Instance R_Num : Num R := {|
  of_int := IZR;
  of_dec := R_of_dec;
  nadd := Rplus;
  nsub := Rminus;
  nmul := Rmult;
  ndiv := Rdiv;
  nabs := Rabs;
  nltb := Rltb
|}.

(** *** IEEE binary64 *)

Definition flt_of_Z (z : Z) : PrimFloat.float :=
  match z with
  | Z0 => PrimFloat.zero
  | Zpos _ => PrimFloat.of_uint63 (Uint63.of_Z z)
  | Zneg p => PrimFloat.opp (PrimFloat.of_uint63 (Uint63.of_Z (Zpos p)))
  end.

(** Decimal literals: exact for [e >= 0], and one correctly rounded division
    for [e < 0], as long as mantissa and power of ten are below [2^53]. *)
Definition flt_of_dec (m e : Z) : PrimFloat.float :=
  match e with
  | Z0 => flt_of_Z m
  | Zpos _ => flt_of_Z (m * 10 ^ e)
  | Zneg p => PrimFloat.div (flt_of_Z m) (flt_of_Z (10 ^ Zpos p))
  end.

#[export] Instance flt_Num : Num PrimFloat.float := {|
  of_int := flt_of_Z;
  of_dec := flt_of_dec;
  nadd := PrimFloat.add;
  nsub := PrimFloat.sub;
  nmul := PrimFloat.mul;
  ndiv := PrimFloat.div;
  nabs := PrimFloat.abs;
  nltb := PrimFloat.ltb
|}.

(** ** Control flow shared by both processors *)

(** [for n, _ in enumerate(x): body], the body failing when an index is out
    of range. *)
Fixpoint for_each {S : Type} (body : nat -> S -> option S)
    (ns : list nat) (s : S) : option S :=
  match ns with
  | [] => Some s
  | n :: ns' => s' ← body n s; for_each body ns' s'
  end.

(** [y[n] = v] on an array: an index past the end raises. *)
Definition setitem {A : Type} (y : list A) (n : nat) (v : A) : option (list A) :=
  if decide (n < length y)%nat then Some (<[n := v]> y) else None.

(** ** First-order ADAA *)

Module ADAA_1.
Section ADAA_1.
Context {A : Type} `{Num A}.
Local Open Scope num_scope.

(** The attributes set by [__init__]. *)
Record t : Type := new { f : A -> A; F1 : A -> A; TOL : A }.

(** The local variables of [process]. *)
Record locals : Type := Locals { y : list A; x1 : A }.

Definition set_y (v : list A) (s : locals) : locals := {| y := v; x1 := x1 s |}.
Definition set_x1 (v : A) (s : locals) : locals := {| y := y s; x1 := v |}.

(** The test [np.abs(x[n] - x1) < self.TOL]. *)
Definition ill_conditioned (self : t) (xn x1 : A) : bool :=
  nabs (xn - x1) <? TOL self.

(** The value assigned to [y[n]]. *)
Definition sample (self : t) (xn x1 : A) : A :=
  if ill_conditioned self xn x1
  then f self ((xn + x1) / of_int 2)
  else (F1 self xn - F1 self x1) / (xn - x1).

(** One iteration of the loop: the assignment to [y[n]], then [x1 = x[n]]. *)
Definition body (self : t) (x : list A) (n : nat) (s : locals) : option locals :=
  xn ← x !! n;
  y' ← setitem (y s) n (sample self xn (x1 s));
  let s := set_y y' s in
  let s := set_x1 xn s in
  Some s.

(** [y = np.copy(x); x1 = 0.0]. *)
Definition init (x : list A) : locals := {| y := x; x1 := of_dec 0 0 |}.

Definition process (self : t) (x : list A) : option (list A) :=
  s ← for_each (body self x) (seq 0 (length x)) (init x);
  Some (y s).

(** The locals when the iteration for index [n] starts. *)
Definition locals_at (self : t) (x : list A) (n : nat) : option locals :=
  for_each (body self x) (seq 0 n) (init x).

(** The outputs as a scan over the samples, [prev] being the sample
    before the first one. *)
Fixpoint outputs (self : t) (prev : A) (xs : list A) : list A :=
  match xs with
  | [] => []
  | xn :: xs' => sample self xn prev :: outputs self xn xs'
  end.

(** [x[n-1]], and the initial history [0.0] at [n = 0]. *)
Definition prev (x : list A) (n : nat) : A :=
  match n with
  | O => of_dec 0 0
  | S k => default (of_dec 0 0) (x !! k)
  end.
End ADAA_1.
Arguments t A : clear implicits.
Arguments locals A : clear implicits.
End ADAA_1.

(** ** Second-order ADAA *)

Module ADAA_2.
Section ADAA_2.
Context {A : Type} `{Num A}.
Local Open Scope num_scope.

Record t : Type := new { f : A -> A; F1 : A -> A; F2 : A -> A; TOL : A }.

Record locals : Type := Locals { y : list A; x1 : A; x2 : A }.

Definition set_y (v : list A) (s : locals) : locals :=
  {| y := v; x1 := x1 s; x2 := x2 s |}.
Definition set_x1 (v : A) (s : locals) : locals :=
  {| y := y s; x1 := v; x2 := x2 s |}.
Definition set_x2 (v : A) (s : locals) : locals :=
  {| y := y s; x1 := x1 s; x2 := v |}.

(** The closure [calcD] of [process]. *)
Definition calcD (self : t) (x0 x1 : A) : A :=
  if nabs (x0 - x1) <? TOL self
  then F1 self ((x0 + x1) / of_dec 2 0)
  else (F2 self x0 - F2 self x1) / (x0 - x1).

(** The closure [fallback] of [process]. *)
Definition fallback (self : t) (x0 x2 : A) : A :=
  let x_bar := (x0 + x2) / of_dec 2 0 in
  let delta := x_bar - x0 in
  if delta <? TOL self
  then f self ((x_bar + x0) / of_dec 2 0)
  else (of_dec 2 0 / delta)
       * (F1 self x_bar + (F2 self x0 - F2 self x_bar) / delta).

Definition ill_conditioned (self : t) (xn x1 : A) : bool :=
  nabs (xn - x1) <? TOL self.

Definition sample (self : t) (xn x1 x2 : A) : A :=
  if ill_conditioned self xn x1
  then fallback self xn x2
  else (of_dec 2 0 / (xn - x2)) * (calcD self xn x1 - calcD self x1 x2).

(** One iteration: the assignment to [y[n]], then [x2 = x1], then
    [x1 = x[n]]. *)
Definition body (self : t) (x : list A) (n : nat) (s : locals) : option locals :=
  xn ← x !! n;
  y' ← setitem (y s) n (sample self xn (x1 s) (x2 s));
  let s := set_y y' s in
  let s := set_x2 (x1 s) s in
  let s := set_x1 xn s in
  Some s.

Definition init (x : list A) : locals :=
  {| y := x; x1 := of_dec 0 0; x2 := of_dec 0 0 |}.

Definition process (self : t) (x : list A) : option (list A) :=
  s ← for_each (body self x) (seq 0 (length x)) (init x);
  Some (y s).

Definition locals_at (self : t) (x : list A) (n : nat) : option locals :=
  for_each (body self x) (seq 0 n) (init x).

(** [x[n-1]] and [x[n-2]], the initial history [0.0] where the index is
    out of range. *)
Definition prev1 (x : list A) (n : nat) : A :=
  match n with
  | O => of_dec 0 0
  | S k => default (of_dec 0 0) (x !! k)
  end.

Definition prev2 (x : list A) (n : nat) : A :=
  match n with
  | S (S k) => default (of_dec 0 0) (x !! k)
  | _ => of_dec 0 0
  end.

(** The outputs, index by index. *)
Definition outputs (self : t) (x : list A) : list A :=
  imap (fun n xn => sample self xn (prev1 x n) (prev2 x n)) x.
End ADAA_2.
Arguments t A : clear implicits.
Arguments locals A : clear implicits.
End ADAA_2.

(** ** The hard clipper and its antiderivatives *)

Section HardClip.
Context {A : Type} `{Num A}.
Local Open Scope num_scope.

(** [int(0 < x) - int(x < 0)], a Python [int]. *)
Definition signum (x : A) : Z :=
  Z.sub (Z.b2z (of_int 0 <? x)) (Z.b2z (x <? of_int 0)).

Definition hardClip (x : A) : A :=
  if nabs x <? of_int 1 then x else of_int (signum x).

Definition hardClipAD1 (x : A) : A :=
  if nabs x <? of_int 1
  then x * x / of_dec 2 0
  else x * of_int (signum x) - of_dec 5 (-1).

Definition hardClipAD2 (x : A) : A :=
  if nabs x <? of_int 1
  then x * x * x / of_dec 6 0
  else (x * x / of_dec 2 0 + of_dec 1 0 / of_dec 6 0) * of_int (signum x)
       - x / of_int 2.

Definition hardClip_ADAA : ADAA_1.t A :=
  ADAA_1.new hardClip hardClipAD1 (of_dec 1 (-5)).

Definition hardClip_ADAA2 : ADAA_2.t A :=
  ADAA_2.new hardClip hardClipAD1 hardClipAD2 (of_dec 1 (-5)).
End HardClip.

(** ** Recording the denominators *)

(** A carrier whose values remember the denominators of the divisions that
    produced them (one entry per division of the expression; a value used
    twice brings its entries twice).  Running a processor on it leaves, next
    to each output sample, the denominators of the divisions [process]
    performed for that sample.  This section is instrumentation, it embeds
    no source function. *)
Section Logged.
Context {A : Type} `{Num A}.
Local Open Scope num_scope.

Definition logged : Type := A * list A.

Definition pure_log (a : A) : logged := (a, []).

(** A nonlinearity supplied by the caller: its own divisions are not
    recorded. *)
Definition lift_log (g : A -> A) (a : logged) : logged := (g a.1, a.2).

#[export] Instance logged_Num : Num logged := {|
  of_int z := pure_log (of_int z);
  of_dec m e := pure_log (of_dec m e);
  nadd a b := (a.1 + b.1, a.2 ++ b.2);
  nsub a b := (a.1 - b.1, a.2 ++ b.2);
  nmul a b := (a.1 * b.1, a.2 ++ b.2);
  ndiv a b := (a.1 / b.1, a.2 ++ b.2 ++ [b.1]);
  nabs a := (nabs a.1, a.2);
  nltb a b := a.1 <? b.1
|}.

Definition log_ADAA_1 (self : ADAA_1.t A) : ADAA_1.t logged :=
  ADAA_1.new (lift_log (ADAA_1.f self)) (lift_log (ADAA_1.F1 self))
    (pure_log (ADAA_1.TOL self)).

Definition log_ADAA_2 (self : ADAA_2.t A) : ADAA_2.t logged :=
  ADAA_2.new (lift_log (ADAA_2.f self)) (lift_log (ADAA_2.F1 self))
    (lift_log (ADAA_2.F2 self)) (pure_log (ADAA_2.TOL self)).

(** The denominators of the divisions performed for output sample [n]. *)
Definition denominators_1 (self : ADAA_1.t A) (x : list A) (n : nat) : list A :=
  match ADAA_1.process (log_ADAA_1 self) (pure_log <$> x) with
  | Some ys => from_option snd [] (ys !! n)
  | None => []
  end.

Definition denominators_2 (self : ADAA_2.t A) (x : list A) (n : nat) : list A :=
  match ADAA_2.process (log_ADAA_2 self) (pure_log <$> x) with
  | Some ys => from_option snd [] (ys !! n)
  | None => []
  end.
End Logged.
Arguments logged A : clear implicits.

(** ** Constructors with the default tolerance *)

(** [__init__(self, f, F1, TOL=1.0e-5)]: the tolerance is optional. *)
Definition ADAA_1_init {A : Type} `{Num A} (f F1 : A -> A) (TOL : option A) :
    ADAA_1.t A :=
  ADAA_1.new f F1 (default (of_dec 1 (-5)) TOL).

Definition ADAA_2_init {A : Type} `{Num A} (f F1 F2 : A -> A) (TOL : option A) :
    ADAA_2.t A :=
  ADAA_2.new f F1 F2 (default (of_dec 1 (-5)) TOL).

(** ** Instances as Python objects *)

(** An instance of [ADAA_1] or [ADAA_2] is a mutable object: [__init__]
    assigns its attributes, and a method receives the object, may assign any
    attribute and leaves the object to the next call.  A method body is a
    function from the attribute dictionary to its result and the dictionary
    after it; [None] is a raised exception. *)
Section Objects.
Context {A : Type} `{Num A}.

(** What an attribute holds: a number or a callable. *)
Inductive value : Type :=
  | VNum (a : A)
  | VFun (g : A -> A).

Definition py (T : Type) : Type :=
  gmap string value -> option (T * gmap string value).

#[export] Instance py_ret : MRet py := fun T t o => Some (t, o).

#[export] Instance py_bind : MBind py := fun T U k m o =>
  match m o with
  | Some (t, o') => k t o'
  | None => None
  end.

(** [self.name]; a missing attribute raises. *)
Definition getattr (name : string) : py value :=
  fun o => (fun v => (v, o)) <$> o !! name.

(** [self.name = v]. *)
Definition setattr (name : string) (v : value) : py unit :=
  fun o => Some (tt, <[name := v]> o).

(** Use of an attribute as a number, and as a callable. *)
Definition as_num (v : value) : py A :=
  match v with
  | VNum a => mret a
  | VFun _ => fun _ => None
  end.

Definition call (v : value) (arg : A) : py A :=
  match v with
  | VFun g => mret (g arg)
  | VNum _ => fun _ => None
  end.

(** An indexing that may raise. *)
Definition of_option {T : Type} (v : option T) : py T :=
  fun o => (fun t => (t, o)) <$> v.

Fixpoint for_each_py {S : Type} (body : nat -> S -> py S)
    (ns : list nat) (s : S) : py S :=
  match ns with
  | [] => mret s
  | n :: ns' => s' ← body n s; for_each_py body ns' s'
  end.
End Objects.
Arguments value A : clear implicits.
Arguments py A T : clear implicits.

Module ADAA_1_py.
Section ADAA_1_py.
Context {A : Type} `{Num A}.
Local Open Scope num_scope.

(** [__init__]: [self.TOL = TOL; self.f = f; self.F1 = F1]. *)
Definition __init__ (f F1 : A -> A) (TOL : A) : py A unit :=
  setattr "TOL" (VNum TOL);;
  setattr "f" (VFun f);;
  setattr "F1" (VFun F1).

(** The right-hand side of the assignment to [y[n]], reading [self.TOL],
    [self.f] and [self.F1] where the source does. *)
Definition sample (xn x1 : A) : py A A :=
  TOL ← getattr "TOL" ≫= as_num;
  if nabs (xn - x1) <? TOL
  then f ← getattr "f";
       call f ((xn + x1) / of_int 2)
  else F1 ← getattr "F1";
       a ← call F1 xn;
       F1' ← getattr "F1";
       b ← call F1' x1;
       mret ((a - b) / (xn - x1)).

Definition body (x : list A) (n : nat) (s : ADAA_1.locals A) :
    py A (ADAA_1.locals A) :=
  xn ← of_option (x !! n);
  v ← sample xn (ADAA_1.x1 s);
  y' ← of_option (setitem (ADAA_1.y s) n v);
  let s := ADAA_1.set_y y' s in
  let s := ADAA_1.set_x1 xn s in
  mret s.

(** [process(self, x)]: the locals [y] and [x1] are created by the call. *)
Definition process (x : list A) : py A (list A) :=
  s ← for_each_py (body x) (seq 0 (length x)) (ADAA_1.init x);
  mret (ADAA_1.y s).

(** Successive calls [self.process(x)] on one instance. *)
Fixpoint calls (xs : list (list A)) : py A (list (list A)) :=
  match xs with
  | [] => mret []
  | x :: xs' => r ← process x; rs ← calls xs'; mret (r :: rs)
  end.

(** The attributes [__init__] has set hold the components of [self]. *)
Definition attributes (o : gmap string (value A)) (self : ADAA_1.t A) : Prop :=
  o !! "TOL" = Some (VNum (ADAA_1.TOL self)) /\
  o !! "f" = Some (VFun (ADAA_1.f self)) /\
  o !! "F1" = Some (VFun (ADAA_1.F1 self)).
End ADAA_1_py.
End ADAA_1_py.

Module ADAA_2_py.
Section ADAA_2_py.
Context {A : Type} `{Num A}.
Local Open Scope num_scope.

Definition __init__ (f F1 F2 : A -> A) (TOL : A) : py A unit :=
  setattr "TOL" (VNum TOL);;
  setattr "f" (VFun f);;
  setattr "F1" (VFun F1);;
  setattr "F2" (VFun F2).

Definition calcD (x0 x1 : A) : py A A :=
  TOL ← getattr "TOL" ≫= as_num;
  if nabs (x0 - x1) <? TOL
  then F1 ← getattr "F1";
       call F1 ((x0 + x1) / of_dec 2 0)
  else F2 ← getattr "F2";
       a ← call F2 x0;
       F2' ← getattr "F2";
       b ← call F2' x1;
       mret ((a - b) / (x0 - x1)).

Definition fallback (x0 x2 : A) : py A A :=
  let x_bar := (x0 + x2) / of_dec 2 0 in
  let delta := x_bar - x0 in
  TOL ← getattr "TOL" ≫= as_num;
  if delta <? TOL
  then f ← getattr "f";
       call f ((x_bar + x0) / of_dec 2 0)
  else F1 ← getattr "F1";
       a ← call F1 x_bar;
       F2 ← getattr "F2";
       b ← call F2 x0;
       F2' ← getattr "F2";
       c ← call F2' x_bar;
       mret ((of_dec 2 0 / delta) * (a + (b - c) / delta)).

Definition sample (xn x1 x2 : A) : py A A :=
  TOL ← getattr "TOL" ≫= as_num;
  if nabs (xn - x1) <? TOL
  then fallback xn x2
  else d1 ← calcD xn x1;
       d2 ← calcD x1 x2;
       mret ((of_dec 2 0 / (xn - x2)) * (d1 - d2)).

Definition body (x : list A) (n : nat) (s : ADAA_2.locals A) :
    py A (ADAA_2.locals A) :=
  xn ← of_option (x !! n);
  v ← sample xn (ADAA_2.x1 s) (ADAA_2.x2 s);
  y' ← of_option (setitem (ADAA_2.y s) n v);
  let s := ADAA_2.set_y y' s in
  let s := ADAA_2.set_x2 (ADAA_2.x1 s) s in
  let s := ADAA_2.set_x1 xn s in
  mret s.

Definition process (x : list A) : py A (list A) :=
  s ← for_each_py (body x) (seq 0 (length x)) (ADAA_2.init x);
  mret (ADAA_2.y s).

Fixpoint calls (xs : list (list A)) : py A (list (list A)) :=
  match xs with
  | [] => mret []
  | x :: xs' => r ← process x; rs ← calls xs'; mret (r :: rs)
  end.

Definition attributes (o : gmap string (value A)) (self : ADAA_2.t A) : Prop :=
  o !! "TOL" = Some (VNum (ADAA_2.TOL self)) /\
  o !! "f" = Some (VFun (ADAA_2.f self)) /\
  o !! "F1" = Some (VFun (ADAA_2.F1 self)) /\
  o !! "F2" = Some (VFun (ADAA_2.F2 self)).
End ADAA_2_py.
End ADAA_2_py.

(** ** The tanh nonlinearity, over the reals *)

(** [np.log(np.cosh(x))], with the real logarithm and hyperbolic cosine. *)
Definition tanh_AD1 (x : R) : R := ln (cosh x).

(** [tanh_ADAA1 = ADAA_1(np.tanh, tanh_AD1)]. *)
Definition tanh_ADAA1 : ADAA_1.t R := ADAA_1_init tanh tanh_AD1 None.

(** * Properties *)

(** ** Literals in binary64 *)

Section Literals.
Import PrimFloat.

(** The decimal literals of the script denote the binary64 values Python
    reads them as. *)
Example flt_literals :
  of_dec (A := PrimFloat.float) 1 (-5) = 0x1.4f8b588e368f1p-17%float /\
  of_dec (A := PrimFloat.float) 5 (-1) = 0x1p-1%float /\
  of_dec (A := PrimFloat.float) 2 0 = of_int 2 /\
  of_int (A := PrimFloat.float) (-1) = (-0x1p+0)%float.
Proof. repeat split; vm_compute; reflexivity. Qed.
End Literals.

(** ** The loop *)

Lemma for_each_app {S : Type} (body : nat -> S -> option S) (l1 l2 : list nat) (s : S) :
  for_each body (l1 ++ l2) s = for_each body l1 s ≫= for_each body l2.
Proof.
  revert s; induction l1 as [|n l1 IH]; intros s; simpl; [done|].
  destruct (body n s) as [s'|]; simpl; [apply IH|done].
Qed.

Lemma setitem_middle {A : Type} (l1 l2 : list A) (u v : A) (n : nat) :
  n = length l1 -> setitem (l1 ++ u :: l2) n v = Some (l1 ++ v :: l2).
Proof.
  intros ->. unfold setitem.
  rewrite decide_True by (rewrite length_app; simpl; lia).
  by rewrite insert_app_r_alt, Nat.sub_diag by lia.
Qed.

Lemma shift_done {A : Type} (done : list A) (a : A) (rest : list A) :
  done ++ a :: rest = (done ++ [a]) ++ rest.
Proof. by rewrite <- app_assoc. Qed.

Lemma last_cons_default {A : Type} (p a : A) (l : list A) :
  default p (last (a :: l)) = default a (last l).
Proof.
  destruct l as [|b l _] using rev_ind; [done|].
  by rewrite app_comm_cons, !last_snoc.
Qed.

Section ADAA_1_loop.
Context {A : Type} `{Num A}.
Import ADAA_1.

(** One iteration, at the index that follows the processed prefix. *)
Lemma body_middle (self : t A) (done_x done_y rest_x rest_y : list A)
    (xn u p : A) :
  length done_y = length done_x ->
  body self (done_x ++ xn :: rest_x) (length done_x)
    {| y := done_y ++ u :: rest_y; x1 := p |}
  = Some {| y := done_y ++ sample self xn p :: rest_y; x1 := xn |}.
Proof.
  intros Hlen. unfold body. cbn [y x1].
  rewrite (list_lookup_middle _ _ _ _ eq_refl). cbn [mbind option_bind].
  by rewrite (setitem_middle _ _ _ _ _ (eq_sym Hlen)).
Qed.

(** Loop invariant: with the first samples [done_x] processed into
    [done_y], running the iterations of the samples [todo] rewrites exactly
    that segment of [y] and leaves [x1] at the last sample seen. *)
Lemma for_each_segment (self : t A) (todo done_x done_y post : list A) (p : A) :
  length done_y = length done_x ->
  for_each (body self (done_x ++ todo ++ post))
    (seq (length done_x) (length todo))
    {| y := done_y ++ todo ++ post; x1 := p |}
  = Some {| y := done_y ++ outputs self p todo ++ post;
            x1 := default p (last todo) |}.
Proof.
  revert done_x done_y p.
  induction todo as [|xn todo IH]; intros done_x done_y p Hlen; [done|].
  cbn [length seq for_each]. rewrite <- !app_comm_cons.
  rewrite body_middle by done. cbn [mbind option_bind].
  rewrite (shift_done done_x), (shift_done done_y).
  replace (Datatypes.S (length done_x)) with (length (done_x ++ [xn]))
    by (rewrite length_app; simpl; lia).
  rewrite IH by (rewrite !length_app; simpl; lia).
  cbn [outputs]. rewrite <- !app_assoc. cbn [app].
  by rewrite last_cons_default.
Qed.

Lemma outputs_length (self : t A) (p : A) (xs : list A) :
  length (outputs self p xs) = length xs.
Proof. revert p; induction xs; intros; simpl; auto. Qed.

Lemma outputs_lookup (self : t A) (xs : list A) (p : A) (n : nat) :
  outputs self p xs !! n
  = (fun xn => sample self xn (match n with
                               | O => p
                               | Datatypes.S k => default p (xs !! k)
                               end)) <$> xs !! n.
Proof.
  revert p n; induction xs as [|a xs IH]; intros p n; [by destruct n|].
  destruct n as [|n]; [done|]. cbn [outputs]. rewrite !lookup_cons. cbn beta iota.
  rewrite IH. destruct n as [|n]; [done|].
  destruct (xs !! Datatypes.S n) eqn:E; [|done]. cbn.
  apply lookup_lt_Some in E.
  destruct (lookup_lt_is_Some_2 xs n ltac:(lia)) as [b ->]. done.
Qed.

Lemma outputs_lookup_prev (self : t A) (xs : list A) (n : nat) :
  outputs self (of_dec 0 0) xs !! n
  = (fun xn => sample self xn (prev xs n)) <$> xs !! n.
Proof. apply outputs_lookup. Qed.

Lemma process_outputs (self : t A) (x : list A) :
  process self x = Some (outputs self (of_dec 0 0) x).
Proof.
  unfold process, init.
  pose proof (for_each_segment self x [] [] [] (of_dec 0 0) eq_refl) as E.
  cbn [app length] in E. rewrite !app_nil_r in E. by rewrite E.
Qed.

Lemma locals_at_prefix (self : t A) (pre post : list A) :
  locals_at self (pre ++ post) (length pre)
  = Some {| y := outputs self (of_dec 0 0) pre ++ post;
            x1 := default (of_dec 0 0) (last pre) |}.
Proof.
  unfold locals_at, init.
  pose proof (for_each_segment self pre [] [] post (of_dec 0 0) eq_refl) as E.
  cbn [app length] in E. exact E.
Qed.
End ADAA_1_loop.

Section ADAA_2_loop.
Context {A : Type} `{Num A}.
Import ADAA_2.

Lemma outputs_2_length (self : t A) (x : list A) :
  length (outputs self x) = length x.
Proof. apply length_imap. Qed.

Lemma outputs_2_lookup (self : t A) (x : list A) (n : nat) :
  outputs self x !! n
  = (fun xn => sample self xn (prev1 x n) (prev2 x n)) <$> x !! n.
Proof. apply list_lookup_imap. Qed.

Lemma locals_at_S (self : t A) (x : list A) (n : nat) :
  locals_at self x (Datatypes.S n) = locals_at self x n ≫= body self x n.
Proof.
  unfold locals_at. rewrite seq_S, for_each_app. cbn [Nat.add for_each].
  destruct (for_each _ _ _) as [s|]; [|done]. cbn [mbind option_bind].
  by destruct (body self x n s).
Qed.

(** Loop invariant, by index: when the iteration for index [n] starts,
    [y] holds the outputs below [n] and the input from [n] on, and the
    history holds the two samples before [x[n]]. *)
Lemma locals_at_index (self : t A) (x : list A) (n : nat) :
  (n <= length x)%nat ->
  locals_at self x n
  = Some {| y := take n (outputs self x) ++ drop n x;
            x1 := prev1 x n; x2 := prev2 x n |}.
Proof.
  induction n as [|n IH]; intros Hn.
  - unfold locals_at, init. cbn. by rewrite drop_0.
  - rewrite locals_at_S, IH by lia. cbn [mbind option_bind].
    destruct (lookup_lt_is_Some_2 x n Hn) as [xn Hxn].
    unfold body. cbn [y x1 x2]. rewrite Hxn. cbn [mbind option_bind].
    rewrite (drop_S _ _ _ Hxn).
    rewrite setitem_middle
      by (rewrite length_take, outputs_2_length; lia).
    cbn [mbind option_bind]. unfold set_x1, set_x2, set_y. cbn [y x1 x2].
    rewrite (take_S_r (outputs self x) n (sample self xn (prev1 x n) (prev2 x n)))
      by (by rewrite outputs_2_lookup, Hxn).
    rewrite <- app_assoc. cbn [app].
    cbn [prev1]. rewrite Hxn. by destruct n.
Qed.

Lemma process_2_outputs (self : t A) (x : list A) :
  process self x = Some (outputs self x).
Proof.
  unfold process. fold (locals_at self x (length x)).
  rewrite locals_at_index by lia. cbn [mbind option_bind y].
  rewrite drop_all, app_nil_r.
  by rewrite take_ge by (rewrite outputs_2_length; lia).
Qed.
End ADAA_2_loop.

(** ** Per-sample rules *)

Section Rules.
Context {A : Type} `{Num A}.
Local Open Scope num_scope.

(** C1. ADAA1 per-sample rule: [process] returns a block whose entry [n]
    is [f((xs[n] + prev) / 2)] when [|xs[n] - prev| < TOL] and
    [(F1(xs[n]) - F1(prev)) / (xs[n] - prev)] otherwise, where [prev] is
    [xs[n-1]], and [0.0] at [n = 0]. *)
Theorem ADAA_1_per_sample_rule (self : ADAA_1.t A) (xs : list A) :
  exists ys : list A,
    ADAA_1.process self xs = Some ys /\
    forall n : nat,
      ys !! n
      = (fun xn =>
           let prev := match n with
                       | O => of_dec 0 0
                       | S k => default (of_dec 0 0) (xs !! k)
                       end in
           if nabs (xn - prev) <? ADAA_1.TOL self
           then ADAA_1.f self ((xn + prev) / of_int 2)
           else (ADAA_1.F1 self xn - ADAA_1.F1 self prev) / (xn - prev))
        <$> xs !! n.
Proof.
  exists (ADAA_1.outputs self (of_dec 0 0) xs). split.
  - apply process_outputs.
  - intros n. by rewrite outputs_lookup.
Qed.

(** C2. ADAA2 per-sample rule: entry [n] of the block returned by
    [process] is [fallback(xs[n], x_prev2)] when
    [|xs[n] - x_prev1| < TOL], and
    [(2 / (xs[n] - x_prev2)) * (calcD(xs[n], x_prev1) - calcD(x_prev1, x_prev2))]
    otherwise, with [x_prev1 = xs[n-1]] and [x_prev2 = xs[n-2]] ([0.0] out
    of range); and [calcD(a, b)] is [F1((a + b) / 2)] when
    [|a - b| < TOL] and [(F2(a) - F2(b)) / (a - b)] otherwise. *)
Theorem ADAA_2_per_sample_rule (self : ADAA_2.t A) (xs : list A) :
  (exists ys : list A,
      ADAA_2.process self xs = Some ys /\
      forall n : nat,
        ys !! n
        = (fun xn =>
             let x_prev1 := match n with
                            | O => of_dec 0 0
                            | S k => default (of_dec 0 0) (xs !! k)
                            end in
             let x_prev2 := match n with
                            | S (S k) => default (of_dec 0 0) (xs !! k)
                            | _ => of_dec 0 0
                            end in
             if nabs (xn - x_prev1) <? ADAA_2.TOL self
             then ADAA_2.fallback self xn x_prev2
             else (of_dec 2 0 / (xn - x_prev2))
                  * (ADAA_2.calcD self xn x_prev1
                     - ADAA_2.calcD self x_prev1 x_prev2))
          <$> xs !! n) /\
  (forall a b : A,
      ADAA_2.calcD self a b
      = if nabs (a - b) <? ADAA_2.TOL self
        then ADAA_2.F1 self ((a + b) / of_dec 2 0)
        else (ADAA_2.F2 self a - ADAA_2.F2 self b) / (a - b)).
Proof.
  split; [|done].
  exists (ADAA_2.outputs self xs). split.
  - apply process_2_outputs.
  - intros n. by rewrite outputs_2_lookup.
Qed.
End Rules.

(** ** Blocks, history and calls *)

Lemma last_take_lookup {A : Type} (d : A) (x : list A) (n : nat) :
  (n <= length x)%nat ->
  default d (last (take n x))
  = match n with O => d | S k => default d (x !! k) end.
Proof.
  intros Hn. destruct n as [|n]; [by rewrite take_0|].
  rewrite last_lookup, length_take_le by done. cbn [pred].
  by rewrite lookup_take_lt by lia.
Qed.

Section Blocks.
Context {A : Type} `{Num A}.
Local Open Scope num_scope.

Lemma outputs_app (self : ADAA_1.t A) (l1 l2 : list A) (p : A) :
  ADAA_1.outputs self p (l1 ++ l2)
  = ADAA_1.outputs self p l1 ++ ADAA_1.outputs self (default p (last l1)) l2.
Proof.
  revert p; induction l1 as [|a l1 IH]; intros p; [done|].
  cbn [app ADAA_1.outputs]. by rewrite IH, last_cons_default.
Qed.

Lemma outputs_2_prefix (self : ADAA_2.t A) (pre post : list A) :
  take (length pre) (ADAA_2.outputs self (pre ++ post)) = ADAA_2.outputs self pre.
Proof.
  apply list_eq; intros i.
  destruct (decide (i < length pre)%nat) as [Hi|Hi].
  - rewrite lookup_take_lt, !outputs_2_lookup, lookup_app_l by done.
    destruct (pre !! i) as [xi|]; [|done]. cbn [fmap option_fmap option_map].
    f_equal. f_equal.
    + destruct i as [|i]; [done|]. cbn [ADAA_2.prev1].
      by rewrite lookup_app_l by lia.
    + destruct i as [|[|i]]; [done|done|]. cbn [ADAA_2.prev2].
      by rewrite lookup_app_l by lia.
  - rewrite lookup_take_ge by lia. symmetry. apply lookup_ge_None_2.
    rewrite outputs_2_length. lia.
Qed.

(** History of the first-order loop, by index. *)
Lemma locals_at_1_index (self : ADAA_1.t A) (x : list A) (n : nat) :
  (n <= length x)%nat ->
  exists y' : list A,
    ADAA_1.locals_at self x n
    = Some {| ADAA_1.y := y'; ADAA_1.x1 := ADAA_1.prev x n |}
    /\ length y' = length x.
Proof.
  intros Hn.
  exists (ADAA_1.outputs self (of_dec 0 0) (take n x) ++ drop n x). split.
  - pose proof (locals_at_prefix self (take n x) (drop n x)) as E.
    rewrite take_drop, length_take_le in E by done. rewrite E.
    by rewrite last_take_lookup.
  - rewrite length_app, outputs_length, <- length_app. by rewrite take_drop.
Qed.

(** C8. Block shape: [process] of either order returns a block of the
    length of its input; entry [n] is the sample rule applied to [xs[n]] and
    the history of index [n]; and the entries of a prefix of the input do not
    depend on the samples that follow it (the samples are consumed first to
    last). *)
Theorem process_block_shape (s1 : ADAA_1.t A) (s2 : ADAA_2.t A) (xs : list A) :
  (exists ys : list A,
      ADAA_1.process s1 xs = Some ys /\
      length ys = length xs /\
      (forall n : nat,
          ys !! n = (fun xn => ADAA_1.sample s1 xn (ADAA_1.prev xs n)) <$> xs !! n) /\
      (forall later : list A,
          take (length xs) <$> ADAA_1.process s1 (xs ++ later) = Some ys)) /\
  (exists ys : list A,
      ADAA_2.process s2 xs = Some ys /\
      length ys = length xs /\
      (forall n : nat,
          ys !! n
          = (fun xn => ADAA_2.sample s2 xn (ADAA_2.prev1 xs n) (ADAA_2.prev2 xs n))
              <$> xs !! n) /\
      (forall later : list A,
          take (length xs) <$> ADAA_2.process s2 (xs ++ later) = Some ys)).
Proof.
  split.
  - exists (ADAA_1.outputs s1 (of_dec 0 0) xs). repeat split.
    + apply process_outputs.
    + apply outputs_length.
    + intros n. by rewrite outputs_lookup.
    + intros later. rewrite process_outputs, outputs_app.
      cbn [fmap option_fmap option_map]. f_equal.
      rewrite <- (outputs_length s1 (of_dec 0 0) xs). apply take_app_length.
  - exists (ADAA_2.outputs s2 xs). repeat split.
    + apply process_2_outputs.
    + apply outputs_2_length.
    + intros n. by rewrite outputs_2_lookup.
    + intros later. rewrite process_2_outputs.
      cbn [fmap option_fmap option_map]. f_equal. apply outputs_2_prefix.
Qed.

(** C7. History invariant: when the iteration that computes output [n]
    starts, the first-order history [x1] is [x[n-1]] and the second-order
    history is [x1 = x[n-1]], [x2 = x[n-2]] ([0.0] out of range); the
    iteration writes [y[n]] from that history and only then shifts it once,
    [x2] taking the old [x1] and [x1] taking [x[n]]. *)
Theorem history_invariant (s1 : ADAA_1.t A) (s2 : ADAA_2.t A) (x : list A)
    (n : nat) (xn : A) (Hn : x !! n = Some xn) :
  (exists l l' : ADAA_1.locals A,
      ADAA_1.locals_at s1 x n = Some l /\
      ADAA_1.x1 l = ADAA_1.prev x n /\
      ADAA_1.body s1 x n l = Some l' /\
      ADAA_1.locals_at s1 x (S n) = Some l' /\
      ADAA_1.y l' !! n = Some (ADAA_1.sample s1 xn (ADAA_1.x1 l)) /\
      ADAA_1.x1 l' = xn) /\
  (exists l l' : ADAA_2.locals A,
      ADAA_2.locals_at s2 x n = Some l /\
      ADAA_2.x1 l = ADAA_2.prev1 x n /\
      ADAA_2.x2 l = ADAA_2.prev2 x n /\
      ADAA_2.body s2 x n l = Some l' /\
      ADAA_2.locals_at s2 x (S n) = Some l' /\
      ADAA_2.y l' !! n = Some (ADAA_2.sample s2 xn (ADAA_2.x1 l) (ADAA_2.x2 l)) /\
      ADAA_2.x2 l' = ADAA_2.x1 l /\
      ADAA_2.x1 l' = xn).
Proof.
  pose proof (lookup_lt_Some _ _ _ Hn) as Hlt.
  split.
  - destruct (locals_at_1_index s1 x n ltac:(lia)) as (y0 & Hl & Hy0).
    assert (Hset : ADAA_1.body s1 x n
                     {| ADAA_1.y := y0; ADAA_1.x1 := ADAA_1.prev x n |}
                   = Some {| ADAA_1.y := <[n := ADAA_1.sample s1 xn (ADAA_1.prev x n)]> y0;
                             ADAA_1.x1 := xn |}).
    { unfold ADAA_1.body, setitem. cbn [ADAA_1.y ADAA_1.x1]. rewrite Hn.
      cbn [mbind option_bind]. by rewrite decide_True by lia. }
    eexists _, _. repeat split; [exact Hl|done|exact Hset| |..].
    + unfold ADAA_1.locals_at in *.
      rewrite seq_S, for_each_app, Hl. cbn [mbind option_bind Nat.add for_each].
      by rewrite Hset.
    + cbn [ADAA_1.y ADAA_1.x1]. by rewrite list_lookup_insert_eq by lia.
    + done.
  - pose proof (locals_at_index s2 x n ltac:(lia)) as Hl.
    set (l := {| ADAA_2.y := take n (ADAA_2.outputs s2 x) ++ drop n x;
                 ADAA_2.x1 := ADAA_2.prev1 x n;
                 ADAA_2.x2 := ADAA_2.prev2 x n |}) in *.
    assert (Hy : length (ADAA_2.y l) = length x).
    { cbn [l ADAA_2.y]. rewrite length_app, length_take, length_drop,
        outputs_2_length. lia. }
    assert (Hset : ADAA_2.body s2 x n l
                   = Some {| ADAA_2.y := <[n := ADAA_2.sample s2 xn (ADAA_2.x1 l)
                                                 (ADAA_2.x2 l)]> (ADAA_2.y l);
                             ADAA_2.x1 := xn;
                             ADAA_2.x2 := ADAA_2.x1 l |}).
    { unfold ADAA_2.body, setitem. rewrite Hn. cbn [mbind option_bind].
      by rewrite decide_True by lia. }
    eexists l, _. repeat split; [exact Hl|exact Hset| |..].
    + by rewrite locals_at_S, Hl.
    + cbn [ADAA_2.y]. by rewrite list_lookup_insert_eq by lia.
    + done.
    + done.
Qed.

End Blocks.

(** ** Calls on one instance *)

Section Calls.
Context {A : Type} `{Num A}.
Local Open Scope num_scope.

(** Unfold the steps of a method body on the instance [o]. *)
Ltac py_steps :=
  unfold mbind, py_bind, mret, py_ret, getattr, call, as_num, of_option;
  cbn [fmap option_fmap option_map].

(** A loop whose body leaves the instance as it found it does so too, and
    computes what the loop without instance computes. *)
Lemma for_each_py_pure {S : Type} (body_py : nat -> S -> py A S)
    (body : nat -> S -> option S) (o : gmap string (value A)) :
  (forall (n : nat) (s : S),
      body_py n s o = (fun s' => (s', o)) <$> body n s) ->
  forall (ns : list nat) (s : S),
    for_each_py body_py ns s o = (fun s' => (s', o)) <$> for_each body ns s.
Proof.
  intros Hbody ns. induction ns as [|n ns IH]; intros s; [done|].
  cbn [for_each_py for_each]. unfold mbind at 1, py_bind. rewrite Hbody.
  destruct (body n s) as [s'|]; [|done]. cbn. apply IH.
Qed.

Lemma bind_run {T U : Type} (m : py A T) (k : T -> py A U)
    (o : gmap string (value A)) (t : T) (o' : gmap string (value A)) :
  m o = Some (t, o') -> (m ≫= k) o = k t o'.
Proof. intros Hm. unfold mbind, py_bind. by rewrite Hm. Qed.

Lemma sample_1_py (o : gmap string (value A)) (self : ADAA_1.t A) (xn x1 : A) :
  ADAA_1_py.attributes o self ->
  ADAA_1_py.sample xn x1 o = Some (ADAA_1.sample self xn x1, o).
Proof.
  intros (HT & Hf & HF1).
  unfold ADAA_1_py.sample, ADAA_1.sample, ADAA_1.ill_conditioned.
  py_steps. rewrite HT. cbn.
  destruct (nabs (xn - x1) <? ADAA_1.TOL self); py_steps;
    by repeat (progress (rewrite ?Hf, ?HF1; cbn)).
Qed.

Lemma body_1_py (o : gmap string (value A)) (self : ADAA_1.t A)
    (x : list A) (n : nat) (s : ADAA_1.locals A) :
  ADAA_1_py.attributes o self ->
  ADAA_1_py.body x n s o = (fun s' => (s', o)) <$> ADAA_1.body self x n s.
Proof.
  intros Ho. unfold ADAA_1_py.body, ADAA_1.body. py_steps.
  destruct (x !! n) as [xn|]; [|done]. cbn.
  rewrite (sample_1_py o self) by done.
  by destruct (setitem _ _ _).
Qed.

Lemma process_1_py (o : gmap string (value A)) (self : ADAA_1.t A) (x : list A) :
  ADAA_1_py.attributes o self ->
  ADAA_1_py.process x o = (fun ys => (ys, o)) <$> ADAA_1.process self x.
Proof.
  intros Ho. unfold ADAA_1_py.process, ADAA_1.process.
  unfold mbind at 1, py_bind.
  rewrite (for_each_py_pure _ (ADAA_1.body self x) o)
    by (intros; by apply body_1_py).
  by destruct (for_each _ _ _).
Qed.

Lemma calcD_py (o : gmap string (value A)) (self : ADAA_2.t A) (a b : A) :
  ADAA_2_py.attributes o self ->
  ADAA_2_py.calcD a b o = Some (ADAA_2.calcD self a b, o).
Proof.
  intros (HT & Hf & HF1 & HF2). unfold ADAA_2_py.calcD, ADAA_2.calcD.
  py_steps. rewrite HT. cbn.
  destruct (nabs (a - b) <? ADAA_2.TOL self); py_steps;
    by repeat (progress (rewrite ?HF1, ?HF2; cbn)).
Qed.

Lemma fallback_py (o : gmap string (value A)) (self : ADAA_2.t A) (a b : A) :
  ADAA_2_py.attributes o self ->
  ADAA_2_py.fallback a b o = Some (ADAA_2.fallback self a b, o).
Proof.
  intros (HT & Hf & HF1 & HF2). unfold ADAA_2_py.fallback, ADAA_2.fallback.
  py_steps. rewrite HT. cbn.
  destruct (_ <? ADAA_2.TOL self); py_steps;
    by repeat (progress (rewrite ?Hf, ?HF1, ?HF2; cbn)).
Qed.

Lemma sample_2_py (o : gmap string (value A)) (self : ADAA_2.t A)
    (xn x1 x2 : A) :
  ADAA_2_py.attributes o self ->
  ADAA_2_py.sample xn x1 x2 o = Some (ADAA_2.sample self xn x1 x2, o).
Proof.
  intros Ho. pose proof Ho as (HT & _).
  unfold ADAA_2_py.sample, ADAA_2.sample, ADAA_2.ill_conditioned.
  rewrite (bind_run _ _ o (ADAA_2.TOL self) o)
    by (py_steps; by rewrite HT).
  destruct (nabs (xn - x1) <? ADAA_2.TOL self).
  - by apply fallback_py.
  - rewrite (bind_run _ _ o _ o (calcD_py o self xn x1 Ho)).
    by rewrite (bind_run _ _ o _ o (calcD_py o self x1 x2 Ho)).
Qed.

Lemma body_2_py (o : gmap string (value A)) (self : ADAA_2.t A)
    (x : list A) (n : nat) (s : ADAA_2.locals A) :
  ADAA_2_py.attributes o self ->
  ADAA_2_py.body x n s o = (fun s' => (s', o)) <$> ADAA_2.body self x n s.
Proof.
  intros Ho. unfold ADAA_2_py.body, ADAA_2.body. py_steps.
  destruct (x !! n) as [xn|]; [|done]. cbn.
  rewrite (sample_2_py o self) by done.
  by destruct (setitem _ _ _).
Qed.

Lemma process_2_py (o : gmap string (value A)) (self : ADAA_2.t A) (x : list A) :
  ADAA_2_py.attributes o self ->
  ADAA_2_py.process x o = (fun ys => (ys, o)) <$> ADAA_2.process self x.
Proof.
  intros Ho. unfold ADAA_2_py.process, ADAA_2.process.
  unfold mbind at 1, py_bind.
  rewrite (for_each_py_pure _ (ADAA_2.body self x) o)
    by (intros; by apply body_2_py).
  by destruct (for_each _ _ _).
Qed.
Lemma calls_1_py (o : gmap string (value A)) (self : ADAA_1.t A)
    (xs : list (list A)) :
  ADAA_1_py.attributes o self ->
  ADAA_1_py.calls xs o = Some (ADAA_1.outputs self (of_dec 0 0) <$> xs, o).
Proof.
  intros Ho. induction xs as [|x xs IH]; [done|].
  cbn [ADAA_1_py.calls fmap list_fmap].
  rewrite (bind_run _ _ o (ADAA_1.outputs self (of_dec 0 0) x) o)
    by (by rewrite (process_1_py o self), process_outputs).
  by rewrite (bind_run _ _ o _ o IH).
Qed.

Lemma calls_2_py (o : gmap string (value A)) (self : ADAA_2.t A)
    (xs : list (list A)) :
  ADAA_2_py.attributes o self ->
  ADAA_2_py.calls xs o = Some (ADAA_2.outputs self <$> xs, o).
Proof.
  intros Ho. induction xs as [|x xs IH]; [done|].
  cbn [ADAA_2_py.calls fmap list_fmap].
  rewrite (bind_run _ _ o (ADAA_2.outputs self x) o)
    by (by rewrite (process_2_py o self), process_2_outputs).
  by rewrite (bind_run _ _ o _ o IH).
Qed.

(** What [__init__] leaves in the instance. *)
Lemma init_1_attributes (f F1 : A -> A) (TOL : A) (o0 : gmap string (value A)) :
  exists o : gmap string (value A),
    ADAA_1_py.__init__ f F1 TOL o0 = Some (tt, o) /\
    ADAA_1_py.attributes o (ADAA_1.new f F1 TOL).
Proof.
  eexists. split; [reflexivity|].
  unfold ADAA_1_py.attributes. cbn [ADAA_1.TOL ADAA_1.f ADAA_1.F1].
  by repeat split; simplify_map_eq.
Qed.

Lemma init_2_attributes (f F1 F2 : A -> A) (TOL : A)
    (o0 : gmap string (value A)) :
  exists o : gmap string (value A),
    ADAA_2_py.__init__ f F1 F2 TOL o0 = Some (tt, o) /\
    ADAA_2_py.attributes o (ADAA_2.new f F1 F2 TOL).
Proof.
  eexists. split; [reflexivity|].
  unfold ADAA_2_py.attributes. cbn [ADAA_2.TOL ADAA_2.f ADAA_2.F1 ADAA_2.F2].
  by repeat split; simplify_map_eq.
Qed.

(** C9. Per-call purity.  A method receives the instance and could store
    history in it.  It does not: on an instance holding the attributes set
    by [__init__] (and any others), a sequence of [process] calls returns at
    every call, leaves the instance as it was, and the result of a call in
    the sequence is the result of that call made alone; the first sample of
    every call is computed from the zero history; the result is the block
    function of the argument; so calls with equal arguments return equal
    results, whatever was processed before or between them. *)
Theorem process_calls_independent (s1 : ADAA_1.t A) (s2 : ADAA_2.t A)
    (o1 o2 : gmap string (value A)) (xs : list (list A)) (i j : nat)
    (x : list A)
    (H1 : ADAA_1_py.attributes o1 s1) (H2 : ADAA_2_py.attributes o2 s2)
    (Hi : xs !! i = Some x) (Hj : xs !! j = Some x) :
  exists (rs1 rs2 : list (list A)) (r1 r2 : list A),
    ADAA_1_py.calls xs o1 = Some (rs1, o1) /\
    ADAA_2_py.calls xs o2 = Some (rs2, o2) /\
    rs1 !! i = Some r1 /\ rs1 !! j = Some r1 /\
    rs2 !! i = Some r2 /\ rs2 !! j = Some r2 /\
    ADAA_1_py.process x o1 = Some (r1, o1) /\
    ADAA_2_py.process x o2 = Some (r2, o2) /\
    ADAA_1.process s1 x = Some r1 /\
    ADAA_2.process s2 x = Some r2 /\
    r1 !! 0%nat = (fun x0 => ADAA_1.sample s1 x0 (of_dec 0 0)) <$> x !! 0%nat /\
    r2 !! 0%nat
    = (fun x0 => ADAA_2.sample s2 x0 (of_dec 0 0) (of_dec 0 0)) <$> x !! 0%nat.
Proof.
  exists (ADAA_1.outputs s1 (of_dec 0 0) <$> xs), (ADAA_2.outputs s2 <$> xs),
         (ADAA_1.outputs s1 (of_dec 0 0) x), (ADAA_2.outputs s2 x).
  rewrite (calls_1_py o1 s1), (calls_2_py o2 s2) by done.
  rewrite (process_1_py o1 s1), (process_2_py o2 s2) by done.
  rewrite process_outputs, process_2_outputs.
  rewrite !list_lookup_fmap, Hi, Hj.
  rewrite outputs_lookup_prev, outputs_2_lookup.
  repeat split; done.
Qed.
End Calls.

(** [x = [0.0, 2.0, 2.0]], index 2, on the hard clipper. *)
Lemma history_invariant_witness :
  ([of_dec 0 0; of_dec 2 0; of_dec 2 0] : list PrimFloat.float) !! 2%nat
  = Some (of_dec 2 0) /\
  exists l : ADAA_2.locals PrimFloat.float,
    ADAA_2.locals_at hardClip_ADAA2 [of_dec 0 0; of_dec 2 0; of_dec 2 0] 2
    = Some l
    /\ ADAA_2.x1 l = of_dec 2 0 /\ ADAA_2.x2 l = of_dec 0 0.
Proof.
  split; [reflexivity|].
  destruct (history_invariant hardClip_ADAA hardClip_ADAA2
              [of_dec 0 0; of_dec 2 0; of_dec 2 0] 2 (of_dec 2 0) eq_refl)
    as [_ (l & l' & Hl & H1 & H2 & _)].
  exists l. auto.
Defined.


(** Two instances built by [__init__] on binary64, and three calls on each,
    the first and the third with the same block. *)
Lemma process_calls_independent_witness :
  exists o1 o2 : gmap string (value PrimFloat.float),
    ADAA_1_py.__init__ hardClip hardClipAD1 (of_dec 1 (-5)) ∅ = Some (tt, o1) /\
    ADAA_2_py.__init__ hardClip hardClipAD1 hardClipAD2 (of_dec 1 (-5)) ∅
    = Some (tt, o2) /\
    ADAA_1_py.attributes o1 hardClip_ADAA /\
    ADAA_2_py.attributes o2 hardClip_ADAA2 /\
    ([[of_dec 0 0; of_dec 2 0; of_dec 2 0]; [of_dec 1 0; of_dec 5 (-1)];
      [of_dec 0 0; of_dec 2 0; of_dec 2 0]] : list (list PrimFloat.float))
      !! 2%nat
    = Some [of_dec 0 0; of_dec 2 0; of_dec 2 0] /\
    exists (rs1 rs2 : list (list PrimFloat.float)),
      ADAA_1_py.calls
        [[of_dec 0 0; of_dec 2 0; of_dec 2 0]; [of_dec 1 0; of_dec 5 (-1)];
         [of_dec 0 0; of_dec 2 0; of_dec 2 0]] o1 = Some (rs1, o1) /\
      ADAA_2_py.calls
        [[of_dec 0 0; of_dec 2 0; of_dec 2 0]; [of_dec 1 0; of_dec 5 (-1)];
         [of_dec 0 0; of_dec 2 0; of_dec 2 0]] o2 = Some (rs2, o2) /\
      rs1 !! 0%nat = rs1 !! 2%nat /\
      rs2 !! 0%nat = rs2 !! 2%nat.
Proof.
  destruct (init_1_attributes (A := PrimFloat.float)
              hardClip hardClipAD1 (of_dec 1 (-5)) ∅) as (o1 & E1 & A1).
  destruct (init_2_attributes (A := PrimFloat.float)
              hardClip hardClipAD1 hardClipAD2 (of_dec 1 (-5)) ∅)
    as (o2 & E2 & A2).
  exists o1, o2.
  split; [exact E1|]. split; [exact E2|].
  split; [exact A1|]. split; [exact A2|]. split; [reflexivity|].
  destruct (process_calls_independent (A := PrimFloat.float)
              hardClip_ADAA hardClip_ADAA2 o1 o2
              [[of_dec 0 0; of_dec 2 0; of_dec 2 0]; [of_dec 1 0; of_dec 5 (-1)];
               [of_dec 0 0; of_dec 2 0; of_dec 2 0]]
              0 2 [of_dec 0 0; of_dec 2 0; of_dec 2 0] A1 A2 eq_refl eq_refl)
    as (rs1 & rs2 & r1 & r2 & C1 & C2 & I1 & J1 & I2 & J2 & _).
  exists rs1, rs2.
  split; [exact C1|]. split; [exact C2|].
  split; [by rewrite I1, J1|by rewrite I2, J2].
Defined.

(** ** Over the real numbers *)

Lemma Rltb_true (a b : R) : (a < b)%R -> Rltb a b = true.
Proof. intros Hab. unfold Rltb. by destruct (Rlt_dec a b). Qed.

Lemma Rltb_false (a b : R) : ~ (a < b)%R -> Rltb a b = false.
Proof. intros Hab. unfold Rltb. by destruct (Rlt_dec a b). Qed.

(** Unfold the carrier operations at the reals, down to literals. *)
Ltac R_ops :=
  cbn [of_int of_dec nadd nsub nmul ndiv nabs nltb R_Num R_of_dec] in *;
  repeat match goal with
    | |- context [(?a ^ ?b)%Z] =>
        let v := eval vm_compute in (a ^ b)%Z in change (a ^ b)%Z with v
    end.

Ltac R_side := unfold Rabs; repeat destruct Rcase_abs; lra.

(** Decide the comparisons of a concrete run. *)
Ltac R_tests :=
  repeat match goal with
    | |- context [Rltb ?a ?b] =>
        first [ rewrite (Rltb_true a b) by R_side
              | rewrite (Rltb_false a b) by R_side ]
    end.

(** C10. [calcD] is symmetric in its arguments, for all reals [a] and
    [b]. *)
Theorem calcD_symmetric (self : ADAA_2.t R) (a b : R) :
  ADAA_2.calcD self a b = ADAA_2.calcD self b a.
Proof.
  unfold ADAA_2.calcD. R_ops. rewrite (Rabs_minus_sym a b).
  destruct (Rltb (Rabs (b - a)) (ADAA_2.TOL self)).
  - f_equal. lra.
  - destruct (Req_dec a b) as [->|Hab]; [done|]. field. lra.
Qed.

(** ** The hard clipper on a known block *)

(** C6. Known closed-form scenario: with the hard clipper, its first
    antiderivative and tolerance [1e-5], [ADAA_1.process] maps
    [[0.0, 2.0, 2.0]] to [[0.0, 0.75, 1.0]]: index 1 takes the quotient
    [(F1(2.0) - F1(0.0)) / 2.0], index 2 the ill-conditioned branch
    [f(2.0)], index 0 starts from the zero history.  Stated for binary64
    samples and for real samples. *)
Theorem hardClip_known_block :
  (ADAA_1.process (A := PrimFloat.float) hardClip_ADAA
     [of_dec 0 0; of_dec 2 0; of_dec 2 0]
   = Some [of_dec 0 0; of_dec 75 (-2); of_dec 1 0] /\
   ADAA_1.ill_conditioned (A := PrimFloat.float) hardClip_ADAA
     (of_dec 2 0) (of_dec 0 0) = false /\
   ADAA_1.ill_conditioned (A := PrimFloat.float) hardClip_ADAA
     (of_dec 2 0) (of_dec 2 0) = true /\
   ndiv (A := PrimFloat.float)
     (nsub (hardClipAD1 (of_dec 2 0)) (hardClipAD1 (of_dec 0 0))) (of_dec 2 0)
   = of_dec 75 (-2) /\
   hardClip (A := PrimFloat.float) (of_dec 2 0) = of_dec 1 0) /\
  (ADAA_1.process (A := R) hardClip_ADAA
     [of_dec 0 0; of_dec 2 0; of_dec 2 0]
   = Some [of_dec 0 0; of_dec 75 (-2); of_dec 1 0] /\
   ADAA_1.ill_conditioned (A := R) hardClip_ADAA
     (of_dec 2 0) (of_dec 0 0) = false /\
   ADAA_1.ill_conditioned (A := R) hardClip_ADAA
     (of_dec 2 0) (of_dec 2 0) = true /\
   ndiv (A := R)
     (nsub (hardClipAD1 (of_dec 2 0)) (hardClipAD1 (of_dec 0 0))) (of_dec 2 0)
   = of_dec 75 (-2) /\
   hardClip (A := R) (of_dec 2 0) = of_dec 1 0).
Proof.
  split.
  - repeat split; vm_compute; reflexivity.
  - rewrite process_outputs.
    unfold ADAA_1.outputs, ADAA_1.sample, ADAA_1.ill_conditioned, hardClip_ADAA,
      hardClip, hardClipAD1, signum.
    cbn [ADAA_1.f ADAA_1.F1 ADAA_1.TOL]. R_ops. R_tests.
    change (Z.b2z true - Z.b2z false)%Z with 1%Z.
    repeat split; [|lra].
    f_equal. f_equal; [lra|]. f_equal. lra.
Qed.

(** ** Constant input *)

Section Constant.
Local Open Scope R_scope.

Lemma sample_1_constant (self : ADAA_1.t R) (c : R) :
  0 < ADAA_1.TOL self -> ADAA_1.sample self c c = ADAA_1.f self c.
Proof.
  intros Htol. unfold ADAA_1.sample, ADAA_1.ill_conditioned. R_ops.
  rewrite Rltb_true by (replace (c - c) with 0 by lra; rewrite Rabs_R0; lra).
  f_equal. lra.
Qed.

Lemma sample_2_constant (self : ADAA_2.t R) (c : R) :
  0 < ADAA_2.TOL self -> ADAA_2.sample self c c c = ADAA_2.f self c.
Proof.
  intros Htol. unfold ADAA_2.sample, ADAA_2.ill_conditioned, ADAA_2.fallback.
  R_ops.
  rewrite Rltb_true by (replace (c - c) with 0 by lra; rewrite Rabs_R0; lra).
  rewrite Rltb_true by lra.
  f_equal. lra.
Qed.

(** C5, as the code has it.  Reduction to direct evaluation at DC: with a
    positive tolerance, the constant block [c, c, ..., c] gives [f(c)] at
    every index [n >= 1] of the first-order processor and at every index
    [n >= 2] of the second-order one, that is, once the history holds [c]
    only. *)
Theorem constant_block_direct_evaluation (s1 : ADAA_1.t R) (s2 : ADAA_2.t R)
    (c : R) (m n : nat)
    (Htol1 : 0 < ADAA_1.TOL s1) (Htol2 : 0 < ADAA_2.TOL s2) (Hn : (n < m)%nat) :
  ((1 <= n)%nat ->
   exists ys : list R,
     ADAA_1.process s1 (replicate m c) = Some ys /\
     ys !! n = Some (ADAA_1.f s1 c)) /\
  ((2 <= n)%nat ->
   exists ys : list R,
     ADAA_2.process s2 (replicate m c) = Some ys /\
     ys !! n = Some (ADAA_2.f s2 c)).
Proof.
  split; intros Hge.
  - eexists; split; [apply process_outputs|].
    rewrite outputs_lookup, lookup_replicate_2 by done.
    destruct n as [|k]; [lia|].
    rewrite lookup_replicate_2 by lia. cbn.
    by rewrite sample_1_constant.
  - eexists; split; [apply process_2_outputs|].
    rewrite outputs_2_lookup, lookup_replicate_2 by done.
    destruct n as [|[|k]]; [lia|lia|].
    cbn [ADAA_2.prev1 ADAA_2.prev2].
    rewrite !lookup_replicate_2 by lia. cbn.
    by rewrite sample_2_constant.
Qed.

(** The hard clipper on [[2.0, 2.0, 2.0]], index 2. *)
Lemma constant_block_direct_evaluation_witness :
  0 < ADAA_1.TOL (A := R) hardClip_ADAA /\
  0 < ADAA_2.TOL (A := R) hardClip_ADAA2 /\
  (exists ys : list R,
      ADAA_1.process hardClip_ADAA (replicate 3 (of_dec 2 0)) = Some ys /\
      ys !! 2%nat = Some (hardClip (of_dec 2 0))) /\
  (exists ys : list R,
      ADAA_2.process hardClip_ADAA2 (replicate 3 (of_dec 2 0)) = Some ys /\
      ys !! 2%nat = Some (hardClip (of_dec 2 0))).
Proof.
  assert (H1 : 0 < ADAA_1.TOL (A := R) hardClip_ADAA) by (cbn; lra).
  assert (H2 : 0 < ADAA_2.TOL (A := R) hardClip_ADAA2) by (cbn; lra).
  split; [exact H1|]. split; [exact H2|].
  destruct (constant_block_direct_evaluation hardClip_ADAA hardClip_ADAA2
              (of_dec 2 0) 3 2 H1 H2 ltac:(lia)) as [E1 E2].
  split; [apply E1; lia|apply E2; lia].
Defined.

(** C5, as stated, fails: "from the first index at which the ill-conditioned
    branch is taken onward, the output is [f(c)]".  On the hard clipper at
    [c = 1e-6] both processors take that branch at index 0.  The first-order
    one returns [f(c / 2)] there.  The second-order one still holds the
    initial [x2 = 0.0] at index 1, where [fallback] returns [f(3c / 4)]. *)
Lemma constant_block_from_first_fallback_fails :
  ~ (forall (self : ADAA_1.t R) (c : R) (m k n : nat) (ys : list R),
        0 < ADAA_1.TOL self ->
        ADAA_1.process self (replicate m c) = Some ys ->
        (forall j : nat, (j < k)%nat ->
           ADAA_1.ill_conditioned self c (ADAA_1.prev (replicate m c) j) = false) ->
        ADAA_1.ill_conditioned self c (ADAA_1.prev (replicate m c) k) = true ->
        (k <= n < m)%nat ->
        ys !! n = Some (ADAA_1.f self c)) /\
  ~ (forall (self : ADAA_2.t R) (c : R) (m k n : nat) (ys : list R),
        0 < ADAA_2.TOL self ->
        ADAA_2.process self (replicate m c) = Some ys ->
        (forall j : nat, (j < k)%nat ->
           ADAA_2.ill_conditioned self c (ADAA_2.prev1 (replicate m c) j) = false) ->
        ADAA_2.ill_conditioned self c (ADAA_2.prev1 (replicate m c) k) = true ->
        (k <= n < m)%nat ->
        ys !! n = Some (ADAA_2.f self c)).
Proof.
  split; intros Hc.
  - set (c := of_dec 1 (-6) : R).
    assert (Htol : 0 < ADAA_1.TOL (A := R) hardClip_ADAA) by (cbn; lra).
    assert (Hk : ADAA_1.ill_conditioned hardClip_ADAA c
                   (ADAA_1.prev (replicate 1 c) 0) = true).
    { unfold ADAA_1.ill_conditioned, ADAA_1.prev, hardClip_ADAA, c.
      cbn [ADAA_1.TOL]. R_ops. by R_tests. }
    assert (Hout : ADAA_1.sample hardClip_ADAA c (of_dec 0 0) = c / 2).
    { unfold ADAA_1.sample, ADAA_1.ill_conditioned, hardClip_ADAA, hardClip, c.
      cbn [ADAA_1.f ADAA_1.F1 ADAA_1.TOL]. R_ops. R_tests. lra. }
    assert (Hf : ADAA_1.f hardClip_ADAA c = c).
    { unfold hardClip_ADAA, hardClip, c. cbn [ADAA_1.f]. R_ops. by R_tests. }
    specialize (Hc hardClip_ADAA c 1%nat 0%nat 0%nat _ Htol (process_outputs _ _)
                  ltac:(intros; lia) Hk ltac:(lia)).
    cbn [replicate ADAA_1.outputs lookup list_lookup] in Hc.
    rewrite Hout, Hf in Hc. injection Hc as Hc.
    unfold c in Hc. revert Hc. R_ops. lra.
  - set (c := of_dec 1 (-6) : R).
    assert (Htol : 0 < ADAA_2.TOL (A := R) hardClip_ADAA2) by (cbn; lra).
    assert (Hk : ADAA_2.ill_conditioned hardClip_ADAA2 c
                   (ADAA_2.prev1 (replicate 2 c) 0) = true).
    { unfold ADAA_2.ill_conditioned, ADAA_2.prev1, hardClip_ADAA2, c.
      cbn [ADAA_2.TOL]. R_ops. by R_tests. }
    assert (Hout : ADAA_2.sample hardClip_ADAA2 c c (of_dec 0 0) = 3 * c / 4).
    { unfold ADAA_2.sample, ADAA_2.ill_conditioned, ADAA_2.fallback,
        hardClip_ADAA2, hardClip, c.
      cbn [ADAA_2.f ADAA_2.F1 ADAA_2.F2 ADAA_2.TOL]. R_ops. R_tests. lra. }
    assert (Hf : ADAA_2.f hardClip_ADAA2 c = c).
    { unfold hardClip_ADAA2, hardClip, c. cbn [ADAA_2.f]. R_ops. by R_tests. }
    specialize (Hc hardClip_ADAA2 c 2%nat 0%nat 1%nat _ Htol
                  (process_2_outputs _ _) ltac:(intros; lia) Hk ltac:(lia)).
    rewrite outputs_2_lookup in Hc.
    change (Some (ADAA_2.sample hardClip_ADAA2 c c (of_dec 0 0))
            = Some (ADAA_2.f hardClip_ADAA2 c)) in Hc.
    rewrite Hout, Hf in Hc. injection Hc as Hc.
    unfold c in Hc. revert Hc. R_ops. lra.
Qed.
End Constant.

(** ** The tests of the second-order helpers *)

(** C4. [fallback] compares the signed [delta = xBar - x0] with the
    tolerance, [xBar = (x0 + x2) / 2]: it returns [f((xBar + x0) / 2)] when
    [delta < TOL] and [(2 / delta) * (F1(xBar) + (F2(x0) - F2(xBar)) / delta)]
    otherwise, while the main rule and [calcD] compare an absolute value.
    On the hard clipper with [x0 = 0.5], [x2 = 0.0] over the reals,
    [delta = -0.25]: the signed test holds, the test on [|delta|] would not,
    and [fallback] returns the direct evaluation [f(0.375)]. *)
Theorem fallback_signed_comparison :
  (forall (A : Type) (N : Num A) (self : ADAA_2.t A) (x0 x2 : A),
      ADAA_2.fallback self x0 x2
      = let xBar := ndiv (nadd x0 x2) (of_dec 2 0) in
        let delta := nsub xBar x0 in
        if nltb delta (ADAA_2.TOL self)
        then ADAA_2.f self (ndiv (nadd xBar x0) (of_dec 2 0))
        else nmul (ndiv (of_dec 2 0) delta)
               (nadd (ADAA_2.F1 self xBar)
                  (ndiv (nsub (ADAA_2.F2 self x0) (ADAA_2.F2 self xBar)) delta))) /\
  (forall (A : Type) (N : Num A) (self : ADAA_2.t A) (xn x1 x2 : A),
      ADAA_2.sample self xn x1 x2
      = if nltb (nabs (nsub xn x1)) (ADAA_2.TOL self)
        then ADAA_2.fallback self xn x2
        else nmul (ndiv (of_dec 2 0) (nsub xn x2))
               (nsub (ADAA_2.calcD self xn x1) (ADAA_2.calcD self x1 x2))) /\
  (forall (A : Type) (N : Num A) (self : ADAA_2.t A) (a b : A),
      ADAA_2.calcD self a b
      = if nltb (nabs (nsub a b)) (ADAA_2.TOL self)
        then ADAA_2.F1 self (ndiv (nadd a b) (of_dec 2 0))
        else ndiv (nsub (ADAA_2.F2 self a) (ADAA_2.F2 self b)) (nsub a b)) /\
  (let x0 : R := of_dec 5 (-1) in
   let x2 : R := of_dec 0 0 in
   let delta : R := nsub (ndiv (nadd x0 x2) (of_dec 2 0)) x0 in
   delta = (- (1 / 4))%R /\
   nltb delta (ADAA_2.TOL (A := R) hardClip_ADAA2) = true /\
   nltb (nabs delta) (ADAA_2.TOL (A := R) hardClip_ADAA2) = false /\
   ADAA_2.fallback hardClip_ADAA2 x0 x2 = hardClip (of_dec 375 (-3)) /\
   ADAA_2.fallback hardClip_ADAA2 x0 x2 = (3 / 8)%R).
Proof.
  split; [done|]. split; [done|]. split; [done|].
  unfold ADAA_2.fallback, hardClip_ADAA2, hardClip.
  cbn [ADAA_2.f ADAA_2.F1 ADAA_2.F2 ADAA_2.TOL]. R_ops.
  replace ((5 / 10 + 0) / 2 - 5 / 10)%R with (- (1 / 4))%R by lra.
  R_tests. repeat split; lra.
Qed.

(** ** Denominators *)

Section Denominators.
Context {A : Type} `{Num A}.
Local Open Scope num_scope.

Lemma prev_log (x : list A) (n : nat) :
  ADAA_1.prev (pure_log <$> x) n = pure_log (ADAA_1.prev x n).
Proof.
  destruct n as [|k]; [done|]. cbn [ADAA_1.prev].
  rewrite list_lookup_fmap. by destruct (x !! k).
Qed.

Lemma prev1_log (x : list A) (n : nat) :
  ADAA_2.prev1 (pure_log <$> x) n = pure_log (ADAA_2.prev1 x n).
Proof.
  destruct n as [|k]; [done|]. cbn [ADAA_2.prev1].
  rewrite list_lookup_fmap. by destruct (x !! k).
Qed.

Lemma prev2_log (x : list A) (n : nat) :
  ADAA_2.prev2 (pure_log <$> x) n = pure_log (ADAA_2.prev2 x n).
Proof.
  destruct n as [|[|k]]; [done|done|]. cbn [ADAA_2.prev2].
  rewrite list_lookup_fmap. by destruct (x !! k).
Qed.

(** The first-order processor divides by the constant 2 on the
    ill-conditioned branch and by [x[n] - x1] on the other one, where the
    test [|x[n] - x1| < TOL] has failed. *)
Lemma denominators_1_guarded (self : ADAA_1.t A) (x : list A) (n : nat) (d : A) :
  d ∈ denominators_1 self x n ->
  d = of_int 2 \/ (nabs d <? ADAA_1.TOL self) = false.
Proof.
  unfold denominators_1. rewrite process_outputs, outputs_lookup_prev.
  rewrite list_lookup_fmap, prev_log.
  destruct (x !! n) as [xn|]; cbn [fmap option_fmap option_map from_option];
    [|by intros ?%elem_of_nil]. generalize (ADAA_1.prev x n) as p; intros p.
  unfold ADAA_1.sample, ADAA_1.ill_conditioned, log_ADAA_1, lift_log, pure_log.
  cbn. destruct (nabs (xn - p) <? ADAA_1.TOL self) eqn:E; cbn.
  - intros ->%list_elem_of_singleton. by left.
  - intros ->%list_elem_of_singleton. by right.
Qed.

(** The second-order processor, on the branch taken when
    [|x[n] - x1| < TOL] fails, divides by [x[n] - x2], which no test
    compares with the tolerance. *)
Lemma denominators_2_outer (self : ADAA_2.t A) (x : list A) (n : nat) (xn : A) :
  x !! n = Some xn ->
  ADAA_2.ill_conditioned self xn (ADAA_2.prev1 x n) = false ->
  xn - ADAA_2.prev2 x n ∈ denominators_2 self x n.
Proof.
  intros Hn Hbranch.
  unfold denominators_2. rewrite process_2_outputs, outputs_2_lookup.
  rewrite list_lookup_fmap, Hn. cbn [fmap option_fmap option_map from_option].
  rewrite prev1_log, prev2_log.
  unfold ADAA_2.sample.
  replace (ADAA_2.ill_conditioned (log_ADAA_2 self) (pure_log xn)
             (pure_log (ADAA_2.prev1 x n)))
    with (ADAA_2.ill_conditioned self xn (ADAA_2.prev1 x n)) by done.
  rewrite Hbranch. cbn. left.
Qed.

(** Every denominator of the second-order processor is the constant 2, or
    has failed the test of its helper ([calcD] on the absolute value,
    [fallback] on the signed value), or is the unguarded [x[n] - x2]. *)
Lemma denominators_2_cases (self : ADAA_2.t A) (x : list A) (n : nat) (xn d : A) :
  x !! n = Some xn ->
  d ∈ denominators_2 self x n ->
  d = of_dec 2 0
  \/ (nabs d <? ADAA_2.TOL self) = false
  \/ (d <? ADAA_2.TOL self) = false
  \/ (d = xn - ADAA_2.prev2 x n
      /\ ADAA_2.ill_conditioned self xn (ADAA_2.prev1 x n) = false).
Proof.
  intros Hn.
  unfold denominators_2. rewrite process_2_outputs, outputs_2_lookup.
  rewrite list_lookup_fmap, Hn. cbn [fmap option_fmap option_map from_option].
  rewrite prev1_log, prev2_log.
  generalize (ADAA_2.prev1 x n) as p1, (ADAA_2.prev2 x n) as p2; intros p1 p2.
  unfold ADAA_2.sample, ADAA_2.ill_conditioned, ADAA_2.fallback, ADAA_2.calcD,
    log_ADAA_2, lift_log, pure_log.
  cbn.
  destruct (nabs (xn - p1) <? ADAA_2.TOL self) eqn:E1; cbn.
  - destruct ((xn + p2) / of_dec 2 0 - xn <? ADAA_2.TOL self) eqn:E2; cbn;
      rewrite ?elem_of_cons, elem_of_nil; intuition (subst; auto).
  - destruct (nabs (p1 - p2) <? ADAA_2.TOL self) eqn:E3; cbn;
      rewrite ?elem_of_cons, elem_of_nil; intuition (subst; auto).
Qed.

(** The divisions of the first-order processor, sample by sample. *)
Lemma denominators_1_lookup (self : ADAA_1.t A) (x : list A) (n : nat) (xn : A) :
  x !! n = Some xn ->
  denominators_1 self x n
  = if ADAA_1.ill_conditioned self xn (ADAA_1.prev x n)
    then [of_int 2] else [xn - ADAA_1.prev x n].
Proof.
  intros Hn.
  unfold denominators_1. rewrite process_outputs, outputs_lookup_prev.
  rewrite list_lookup_fmap, prev_log, Hn.
  cbn [fmap option_fmap option_map from_option].
  generalize (ADAA_1.prev x n) as p; intros p.
  unfold ADAA_1.sample, ADAA_1.ill_conditioned, log_ADAA_1, lift_log, pure_log.
  cbn. by destruct (nabs (xn - p) <? ADAA_1.TOL self).
Qed.

(** Erasing the record gives back the samples of the plain run. *)
Lemma logged_run_1 (self : ADAA_1.t A) (x : list A) :
  (fun ys : list (A * list A) => fst <$> ys) <$> ADAA_1.process (log_ADAA_1 self) (pure_log <$> x)
  = ADAA_1.process self x.
Proof.
  rewrite !process_outputs. cbn [fmap option_fmap option_map]. f_equal.
  apply list_eq; intros n.
  rewrite list_lookup_fmap, !outputs_lookup_prev, list_lookup_fmap, prev_log.
  destruct (x !! n) as [xn|]; [|done]. cbn [fmap option_fmap option_map].
  f_equal. unfold ADAA_1.sample, ADAA_1.ill_conditioned. cbn.
  by destruct (nabs (xn - ADAA_1.prev x n) <? ADAA_1.TOL self).
Qed.

Lemma logged_run_2 (self : ADAA_2.t A) (x : list A) :
  (fun ys : list (A * list A) => fst <$> ys) <$> ADAA_2.process (log_ADAA_2 self) (pure_log <$> x)
  = ADAA_2.process self x.
Proof.
  rewrite !process_2_outputs. cbn [fmap option_fmap option_map]. f_equal.
  apply list_eq; intros n.
  rewrite list_lookup_fmap, !outputs_2_lookup, list_lookup_fmap.
  rewrite prev1_log, prev2_log.
  destruct (x !! n) as [xn|]; [|done]. cbn [fmap option_fmap option_map].
  f_equal.
  generalize (ADAA_2.prev1 x n) as p1, (ADAA_2.prev2 x n) as p2; intros p1 p2.
  unfold ADAA_2.sample, ADAA_2.ill_conditioned, ADAA_2.fallback, ADAA_2.calcD.
  cbn.
  destruct (nabs (xn - p1) <? ADAA_2.TOL self).
  - by destruct ((xn + p2) / of_dec 2 0 - xn <? ADAA_2.TOL self).
  - cbn. by destruct (nabs (p1 - p2) <? ADAA_2.TOL self).
Qed.
End Denominators.

(** C3. Ill-conditioning is not handled at every division.  On the block
    [[1.0, 0.0]] with the hard clipper and tolerance [1e-5], in binary64:
    at index 1 the test [|x[1] - x1| < TOL] fails, so the quotient branch
    runs; its divisions are by [x[1] - x2 = 0.0], [-1.0] and [1.0]; the
    first of these is below the tolerance; and the output sample is NaN.
    Over the reals the same block has the denominator 0 at index 1. *)
Theorem ADAA_2_divides_by_zero :
  let x : list PrimFloat.float := [of_dec 1 0; of_dec 0 0] in
  ADAA_2.ill_conditioned hardClip_ADAA2 (of_dec 0 0) (ADAA_2.prev1 x 1) = false /\
  denominators_2 hardClip_ADAA2 x 1
  = [nsub (of_dec 0 0) (ADAA_2.prev2 x 1); of_int (-1); of_int 1] /\
  nsub (of_dec 0 0) (ADAA_2.prev2 x 1) = of_dec 0 0 /\
  nltb (nabs (nsub (of_dec 0 0) (ADAA_2.prev2 x 1)))
    (ADAA_2.TOL (A := PrimFloat.float) hardClip_ADAA2) = true /\
  (ADAA_2.process hardClip_ADAA2 x ≫= fun ys => ys !! 1%nat)
  = Some PrimFloat.nan /\
  (0%R ∈ denominators_2 (A := R) hardClip_ADAA2 [of_dec 1 0; of_dec 0 0] 1).
Proof.
  split; [|split; [|split; [|split; [|split]]]]; try (vm_compute; reflexivity).
  replace 0%R with (nsub (A := R) (of_dec 0 0)
                      (ADAA_2.prev2 [of_dec 1 0; of_dec 0 0] 1))
    by (cbn; lra).
  apply denominators_2_outer; [done|].
  unfold ADAA_2.ill_conditioned, hardClip_ADAA2.
  cbn [ADAA_2.TOL ADAA_2.prev1 lookup list_lookup default from_option].
  unfold Datatypes.id. R_ops. by R_tests.
Qed.

(** * Further properties of the source *)

(** ** The hard clipper over the reals *)

(** Evaluate the integer under a coercion to the reals. *)
Ltac Z_lits :=
  repeat match goal with
    | |- context [IZR (Z.sub ?a ?b)] =>
        let v := eval vm_compute in (Z.sub a b) in change (Z.sub a b) with v
    end.

Section HardClipReal.
Local Open Scope R_scope.

Lemma hardClip_cases (x : R) :
  (x <= -1 /\ hardClip x = -1) \/
  (-1 < x < 1 /\ hardClip x = x) \/
  (1 <= x /\ hardClip x = 1).
Proof.
  unfold hardClip, signum. R_ops.
  destruct (Rle_dec x (-1)); [left|right; destruct (Rle_dec 1 x); [right|left]];
    (split; [lra|]); R_tests; Z_lits; lra.
Qed.

Lemma hardClipAD1_cases (x : R) :
  (x <= -1 /\ hardClipAD1 x = - x - 1 / 2) \/
  (-1 < x < 1 /\ hardClipAD1 x = x * x / 2) \/
  (1 <= x /\ hardClipAD1 x = x - 1 / 2).
Proof.
  unfold hardClipAD1, signum. R_ops.
  destruct (Rle_dec x (-1)); [left|right; destruct (Rle_dec 1 x); [right|left]];
    (split; [lra|]); R_tests; Z_lits; lra.
Qed.

Lemma hardClipAD2_cases (x : R) :
  (x <= -1 /\ hardClipAD2 x = - (x * x / 2 + 1 / 6) - x / 2) \/
  (-1 < x < 1 /\ hardClipAD2 x = x * x * x / 6) \/
  (1 <= x /\ hardClipAD2 x = x * x / 2 + 1 / 6 - x / 2).
Proof.
  unfold hardClipAD2, signum. R_ops.
  destruct (Rle_dec x (-1)); [left|right; destruct (Rle_dec 1 x); [right|left]];
    (split; [lra|]); R_tests; Z_lits; lra.
Qed.
(** A second-order bound on the increment gives the derivative. *)
Lemma increment_bound_derivative (g : R -> R) (x l : R) :
  (forall h : R, Rabs (g (x + h) - g x - h * l) <= h * h / 2) ->
  derivable_pt_lim g x l.
Proof.
  intros Hg eps Heps. exists (mkposreal eps Heps). cbn [pos].
  intros h Hh Hlt.
  replace ((g (x + h) - g x) / h - l) with ((g (x + h) - g x - h * l) / h)
    by (field; exact Hh).
  unfold Rdiv at 1. rewrite Rabs_mult, Rabs_inv.
  pose proof (Hg h) as Hb. pose proof (Rabs_pos_lt h Hh) as Hpos.
  apply Rmult_lt_reg_r with (Rabs h); [exact Hpos|].
  rewrite Rmult_assoc, Rinv_l by lra. rewrite Rmult_1_r.
  assert (Hsq : h * h = Rabs h * Rabs h).
  { unfold Rabs. destruct (Rcase_abs h); lra. }
  nra.
Qed.

Lemma hardClipAD1_increment (x h : R) :
  Rabs (hardClipAD1 (x + h) - hardClipAD1 x - h * hardClip x) <= h * h / 2.
Proof.
  destruct (hardClip_cases x) as [[? ->]|[[? ->]|[? ->]]];
    destruct (hardClipAD1_cases x) as [[? ->]|[[? ->]|[? ->]]]; try lra;
    destruct (hardClipAD1_cases (x + h)) as [[? ->]|[[? ->]|[? ->]]];
    apply Rabs_le; split; nra.
Qed.

Lemma hardClipAD2_increment (x h : R) :
  Rabs (hardClipAD2 (x + h) - hardClipAD2 x - h * hardClipAD1 x) <= h * h / 2.
Proof.
  destruct (hardClipAD1_cases x) as [[? ->]|[[? ->]|[? ->]]];
    destruct (hardClipAD2_cases x) as [[? ->]|[[? ->]|[? ->]]]; try lra;
    destruct (hardClipAD2_cases (x + h)) as [[? ->]|[[? ->]|[? ->]]];
    apply Rabs_le; split; try nra.
  - assert (0 <= (x + h + 1) * ((x + h + 1) * (x + h + 1)))
      by (apply Rmult_le_pos; nra).
    nra.
  - assert (0 <= (x + h + 1) * (x + h + 1) * (2 - (x + h + 1)))
      by (apply Rmult_le_pos; nra).
    assert (0 <= (h - (x + h + 1)) * (h + (x + h + 1)))
      by (apply Rmult_le_pos; nra).
    nra.
  - assert (0 <= (x + 1) * (x + 1) * (- h - (x + 1)))
      by (apply Rmult_le_pos; nra).
    assert (0 <= (x + 1) * ((x + 1) * (x + 1))) by (apply Rmult_le_pos; nra).
    nra.
  - assert (0 <= (- h) * (x + 1) * (- h - (x + 1)))
      by (apply Rmult_le_pos; nra).
    assert (0 <= h * h * (2 - (x + 1))) by (apply Rmult_le_pos; nra).
    assert (0 <= (x + 1) * ((x + 1) * (x + 1))) by (apply Rmult_le_pos; nra).
    nra.
  - assert (0 <= h * (1 - x) * (h - (1 - x))) by (apply Rmult_le_pos; nra).
    assert (0 <= h * h * (2 - (1 - x))) by (apply Rmult_le_pos; nra).
    assert (0 <= (1 - x) * ((1 - x) * (1 - x))) by (apply Rmult_le_pos; nra).
    nra.
  - assert (0 <= (1 - x) * (1 - x) * (h - (1 - x)))
      by (apply Rmult_le_pos; nra).
    assert (0 <= (1 - x) * ((1 - x) * (1 - x))) by (apply Rmult_le_pos; nra).
    nra.
  - assert (0 <= (1 - x - h) * (1 - x - h) * (2 - (1 - x - h)))
      by (apply Rmult_le_pos; nra).
    assert (0 <= (- h - (1 - x - h)) * (- h + (1 - x - h)))
      by (apply Rmult_le_pos; nra).
    nra.
  - assert (0 <= (1 - x - h) * ((1 - x - h) * (1 - x - h)))
      by (apply Rmult_le_pos; nra).
    nra.
Qed.

(** X1. The hard clipper of the script is the clamp to [[-1, 1]]; the strict
    test [np.abs(x) < 1] and the [signum] branch meet at the two
    breakpoints. *)
Theorem hardClip_is_clamp (x : R) :
  hardClip x = Rmax (-1) (Rmin 1 x).
Proof.
  unfold Rmax, Rmin.
  destruct (hardClip_cases x) as [[? ->]|[[? ->]|[? ->]]];
    destruct (Rle_dec 1 x); destruct (Rle_dec (-1) _); lra.
Qed.

(** X2. [hardClipAD1] is an antiderivative of [hardClip] on the whole real
    line, the breakpoints [-1] and [1] included. *)
Theorem hardClipAD1_antiderivative (x : R) :
  derivable_pt_lim hardClipAD1 x (hardClip x).
Proof. apply increment_bound_derivative. apply hardClipAD1_increment. Qed.

(** X3. [hardClipAD2] is an antiderivative of [hardClipAD1] on the whole real
    line, the breakpoints included. *)
Theorem hardClipAD2_antiderivative (x : R) :
  derivable_pt_lim hardClipAD2 x (hardClipAD1 x).
Proof. apply increment_bound_derivative. apply hardClipAD2_increment. Qed.

(** The hard clipper and its second antiderivative are odd, its first
    antiderivative is even. *)
Lemma hardClip_parity (x : R) :
  hardClip (- x) = - hardClip x /\
  hardClipAD1 (- x) = hardClipAD1 x /\
  hardClipAD2 (- x) = - hardClipAD2 x.
Proof.
  destruct (hardClip_cases x) as [[? ->]|[[? ->]|[? ->]]];
    destruct (hardClip_cases (- x)) as [[? ->]|[[? ->]|[? ->]]]; try lra;
    destruct (hardClipAD1_cases x) as [[? ->]|[[? ->]|[? ->]]]; try lra;
    destruct (hardClipAD1_cases (- x)) as [[? ->]|[[? ->]|[? ->]]]; try lra;
    destruct (hardClipAD2_cases x) as [[? ->]|[[? ->]|[? ->]]]; try lra;
    destruct (hardClipAD2_cases (- x)) as [[? ->]|[[? ->]|[? ->]]]; try lra;
    repeat split; try lra; nra.
Qed.
End HardClipReal.

(** ** First-order processor over the reals *)

Section FirstOrderReal.
Local Open Scope R_scope.

Lemma ill_conditioned_1_false (self : ADAA_1.t R) (a b : R) :
  0 < ADAA_1.TOL self ->
  ADAA_1.ill_conditioned self a b = false ->
  ADAA_1.TOL self <= Rabs (a - b) /\ a <> b.
Proof.
  unfold ADAA_1.ill_conditioned. R_ops. unfold Rltb.
  intros Htol Hb. destruct (Rlt_dec _ _) as [|Hn]; [done|].
  split; [lra|]. intros ->. apply Hn.
  replace (b - b) with 0 by lra. rewrite Rabs_R0. exact Htol.
Qed.

(** Mean value form of one output sample. *)
Lemma sample_1_mean_value (self : ADAA_1.t R) (a b : R) :
  (forall t : R, derivable_pt_lim (ADAA_1.F1 self) t (ADAA_1.f self t)) ->
  0 < ADAA_1.TOL self ->
  exists c : R,
    Rmin b a <= c <= Rmax b a /\ ADAA_1.sample self a b = ADAA_1.f self c.
Proof.
  intros Hd Htol. unfold ADAA_1.sample.
  destruct (ADAA_1.ill_conditioned self a b) eqn:E.
  - exists ((a + b) / of_int 2). split; [|done]. R_ops.
    unfold Rmin, Rmax. destruct (Rle_dec b a); lra.
  - destruct (ill_conditioned_1_false self a b Htol E) as [_ Hab]. R_ops.
    destruct (Rlt_le_dec a b) as [Hlt|Hle].
    + destruct (MVT_cor2 (ADAA_1.F1 self) (ADAA_1.f self) a b Hlt
                  (fun c _ => Hd c)) as (c & Hc & Hin).
      exists c. split.
      * unfold Rmin, Rmax. destruct (Rle_dec b a); lra.
      * replace (ADAA_1.F1 self a - ADAA_1.F1 self b)
          with (ADAA_1.f self c * (a - b)) by lra.
        field. lra.
    + assert (Hlt : b < a) by lra.
      destruct (MVT_cor2 (ADAA_1.F1 self) (ADAA_1.f self) b a Hlt
                  (fun c _ => Hd c)) as (c & Hc & Hin).
      exists c. split.
      * unfold Rmin, Rmax. destruct (Rle_dec b a); lra.
      * rewrite Hc. field. lra.
Qed.

(** X5. Whenever [F1] is an antiderivative of [f] and the tolerance is
    positive, every output sample of the first-order processor is a value
    [f(c)] of the nonlinearity at a point [c] between the previous sample
    and the current one. *)
Theorem ADAA_1_output_is_value_between_samples (self : ADAA_1.t R)
    (x : list R) (n : nat) (xn : R)
    (Hd : forall t : R, derivable_pt_lim (ADAA_1.F1 self) t (ADAA_1.f self t))
    (Htol : 0 < ADAA_1.TOL self)
    (Hn : x !! n = Some xn) :
  exists c : R,
    Rmin (ADAA_1.prev x n) xn <= c <= Rmax (ADAA_1.prev x n) xn /\
    (ADAA_1.process self x ≫= fun ys => ys !! n) = Some (ADAA_1.f self c).
Proof.
  destruct (sample_1_mean_value self xn (ADAA_1.prev x n) Hd Htol)
    as (c & Hin & Hc).
  exists c. split; [exact Hin|].
  rewrite process_outputs. cbn [mbind option_bind].
  by rewrite outputs_lookup_prev, Hn, <- Hc.
Qed.

(** X6. The anti-aliased hard clipper never leaves [[-1, 1]]. *)
Theorem hardClip_ADAA_bounded (x ys : list R) (n : nat) (yn : R)
    (Hys : ADAA_1.process hardClip_ADAA x = Some ys)
    (Hyn : ys !! n = Some yn) :
  -1 <= yn <= 1.
Proof.
  assert (E : ys = ADAA_1.outputs hardClip_ADAA (of_dec 0 0) x)
    by (rewrite process_outputs in Hys; congruence).
  subst ys. rewrite outputs_lookup_prev in Hyn.
  destruct (x !! n) as [xn|]; [|done]. injection Hyn as <-.
  destruct (sample_1_mean_value hardClip_ADAA xn (ADAA_1.prev x n))
    as (c & _ & ->).
  - intros t. apply increment_bound_derivative, hardClipAD1_increment.
  - cbn. lra.
  - cbn [hardClip_ADAA ADAA_1.f].
    destruct (hardClip_cases c) as [[? ->]|[[? ->]|[? ->]]]; lra.
Qed.

(** X7. In the linear region of the hard clipper the first-order processor is
    the two-tap average of the current and the previous sample, on either
    branch of the tolerance test. *)
Theorem hardClip_ADAA_linear_region (x : list R) (n : nat) (xn : R)
    (Hn : x !! n = Some xn)
    (Hxn : -1 < xn < 1) (Hprev : -1 < ADAA_1.prev x n < 1) :
  (ADAA_1.process hardClip_ADAA x ≫= fun ys => ys !! n)
  = Some ((xn + ADAA_1.prev x n) / 2).
Proof.
  rewrite process_outputs. cbn [mbind option_bind].
  rewrite outputs_lookup_prev, Hn. cbn [fmap option_fmap option_map].
  f_equal. generalize dependent (ADAA_1.prev x n). intros p Hp.
  unfold ADAA_1.sample.
  destruct (ADAA_1.ill_conditioned hardClip_ADAA xn p) eqn:E.
  - cbn [hardClip_ADAA ADAA_1.f]. R_ops.
    destruct (hardClip_cases ((xn + p) / 2)) as [[? ->]|[[? ->]|[? ->]]]; lra.
  - assert (Htol : 0 < ADAA_1.TOL (A := R) hardClip_ADAA) by (cbn; lra).
    destruct (ill_conditioned_1_false hardClip_ADAA xn p Htol E) as [_ Hne].
    cbn [hardClip_ADAA ADAA_1.F1]. R_ops.
    destruct (hardClipAD1_cases xn) as [[? ->]|[[? ->]|[? ->]]]; try lra.
    destruct (hardClipAD1_cases p) as [[? ->]|[[? ->]|[? ->]]]; try lra.
    field. lra.
Qed.

(** X8. With a positive tolerance, a processor with an odd nonlinearity and an
    even antiderivative maps the negated block to the negated output. *)
Theorem ADAA_1_odd_symmetry (self : ADAA_1.t R) (x : list R)
    (Htol : 0 < ADAA_1.TOL self)
    (Hf : forall t : R, ADAA_1.f self (- t) = - ADAA_1.f self t)
    (HF1 : forall t : R, ADAA_1.F1 self (- t) = ADAA_1.F1 self t) :
  ADAA_1.process self (Ropp <$> x)
  = (fun ys : list R => Ropp <$> ys) <$> ADAA_1.process self x.
Proof.
  rewrite !process_outputs. cbn [fmap option_fmap option_map]. f_equal.
  assert (Hs : forall a b : R,
             ADAA_1.sample self (- a) (- b) = - ADAA_1.sample self a b).
  { intros a b. unfold ADAA_1.sample.
    replace (ADAA_1.ill_conditioned self (- a) (- b))
      with (ADAA_1.ill_conditioned self a b).
    2:{ unfold ADAA_1.ill_conditioned. R_ops.
        replace (- a - - b) with (- (a - b)) by lra. by rewrite Rabs_Ropp. }
    destruct (ADAA_1.ill_conditioned self a b) eqn:E; R_ops.
    - replace ((- a + - b) / 2) with (- ((a + b) / 2)) by lra. apply Hf.
    - destruct (ill_conditioned_1_false self a b Htol E) as [_ Hab].
      rewrite !HF1. field. lra. }
  assert (Hgen : forall p : R,
             ADAA_1.outputs self (- p) (Ropp <$> x)
             = Ropp <$> ADAA_1.outputs self p x).
  { induction x as [|a x IH]; intros p; [done|].
    cbn [fmap list_fmap ADAA_1.outputs]. by rewrite Hs, <- IH. }
  rewrite <- Hgen. f_equal. R_ops. lra.
Qed.
End FirstOrderReal.

(** ** Where the processors divide, over the reals *)

Section DenominatorsReal.
Local Open Scope R_scope.

(** X9. With a positive tolerance the first-order processor never divides by
    zero: each denominator is the constant 2 or a sample difference of
    magnitude at least the tolerance. *)
Theorem ADAA_1_denominators_nonzero (self : ADAA_1.t R) (x : list R)
    (n : nat) (d : R)
    (Htol : 0 < ADAA_1.TOL self)
    (Hd : d ∈ denominators_1 self x n) :
  d <> 0 /\ (d = 2 \/ ADAA_1.TOL self <= Rabs d).
Proof.
  destruct (denominators_1_guarded self x n d Hd) as [->|Hg]; R_ops.
  - split; [lra|by left].
  - revert Hg. R_ops. unfold Rltb. destruct (Rlt_dec _ _) as [|Hge]; [done|].
    intros _. split; [|right; lra].
    intros ->. rewrite Rabs_R0 in Hge. lra.
Qed.

(** X10. With a positive tolerance the second-order processor divides by zero
    at sample [n] exactly when the quotient branch is taken
    ([|x[n] - x[n-1]| >= TOL]) and [x[n]] equals [x[n-2]]. *)
Theorem ADAA_2_zero_denominator_iff (self : ADAA_2.t R) (x : list R)
    (n : nat) (xn : R)
    (Htol : 0 < ADAA_2.TOL self)
    (Hn : x !! n = Some xn) :
  0 ∈ denominators_2 self x n
  <-> (ADAA_2.TOL self <= Rabs (xn - ADAA_2.prev1 x n)
       /\ xn = ADAA_2.prev2 x n).
Proof.
  assert (Hbranch : ADAA_2.ill_conditioned self xn (ADAA_2.prev1 x n) = false
                    <-> ADAA_2.TOL self <= Rabs (xn - ADAA_2.prev1 x n)).
  { unfold ADAA_2.ill_conditioned. R_ops. unfold Rltb.
    destruct (Rlt_dec _ _); split; intros; (done || lra). }
  split.
  - intros Hd.
    destruct (denominators_2_cases self x n xn 0 Hn Hd)
      as [H2|[Hg|[Hg|[Hout Hb]]]]; revert H2 || revert Hg || idtac; R_ops.
    + lra.
    + rewrite Rabs_R0. unfold Rltb.
      destruct (Rlt_dec _ _); [done|lra].
    + unfold Rltb. destruct (Rlt_dec _ _); [done|lra].
    + split; [by apply Hbranch|]. revert Hout. R_ops. lra.
  - intros [Hb ->].
    replace 0 with (nsub (A := R) (ADAA_2.prev2 x n) (ADAA_2.prev2 x n))
      by (R_ops; lra).
    apply (denominators_2_outer self x n (ADAA_2.prev2 x n) Hn).
    by apply Hbranch.
Qed.
End DenominatorsReal.

(** ** Second-order processor on the linear region of the hard clipper *)

Section SecondOrderReal.
Local Open Scope R_scope.

Lemma ill_conditioned_2_spec (self : ADAA_2.t R) (a b : R) :
  (ADAA_2.ill_conditioned self a b = true /\ Rabs (a - b) < ADAA_2.TOL self)
  \/ (ADAA_2.ill_conditioned self a b = false
      /\ ADAA_2.TOL self <= Rabs (a - b)).
Proof.
  unfold ADAA_2.ill_conditioned. R_ops. unfold Rltb.
  destruct (Rlt_dec _ _); [left|right]; split; (done || lra).
Qed.

Lemma calcD_linear (a b : R) :
  -1 < a < 1 -> -1 < b < 1 ->
  1 / 100000 <= Rabs (a - b) ->
  ADAA_2.calcD hardClip_ADAA2 a b = (a * a + a * b + b * b) / 6.
Proof.
  intros Ha Hb Hab. unfold ADAA_2.calcD.
  cbn [hardClip_ADAA2 ADAA_2.F1 ADAA_2.F2 ADAA_2.TOL]. R_ops.
  rewrite Rltb_false by lra.
  destruct (hardClipAD2_cases a) as [[? ->]|[[? ->]|[? ->]]]; try lra.
  destruct (hardClipAD2_cases b) as [[? ->]|[[? ->]|[? ->]]]; try lra.
  assert (a <> b).
  { intros ->. replace (b - b) with 0 in Hab by lra.
    rewrite Rabs_R0 in Hab. lra. }
  field. lra.
Qed.

(** X11. In the linear region of the hard clipper, when the differences
    [x[n] - x[n-1]], [x[n-1] - x[n-2]] and [x[n] - x[n-2]] all reach the
    tolerance, the second-order processor returns the mean of the three
    samples. *)
Theorem hardClip_ADAA2_linear_region (x : list R) (n : nat) (xn : R)
    (Hn : x !! n = Some xn)
    (Hxn : -1 < xn < 1)
    (Hp1 : -1 < ADAA_2.prev1 x n < 1)
    (Hp2 : -1 < ADAA_2.prev2 x n < 1)
    (Hd1 : 1 / 100000 <= Rabs (xn - ADAA_2.prev1 x n))
    (Hd2 : 1 / 100000 <= Rabs (ADAA_2.prev1 x n - ADAA_2.prev2 x n))
    (Hd3 : 1 / 100000 <= Rabs (xn - ADAA_2.prev2 x n)) :
  (ADAA_2.process hardClip_ADAA2 x ≫= fun ys => ys !! n)
  = Some ((xn + ADAA_2.prev1 x n + ADAA_2.prev2 x n) / 3).
Proof.
  rewrite process_2_outputs. cbn [mbind option_bind].
  rewrite outputs_2_lookup, Hn. cbn [fmap option_fmap option_map]. f_equal.
  revert Hp1 Hp2 Hd1 Hd2 Hd3.
  generalize (ADAA_2.prev1 x n) as p1, (ADAA_2.prev2 x n) as p2.
  intros p1 p2 Hp1 Hp2 Hd1 Hd2 Hd3.
  assert (Hne : xn <> p2).
  { intros ->. replace (p2 - p2) with 0 in Hd3 by lra.
    rewrite Rabs_R0 in Hd3. lra. }
  unfold ADAA_2.sample.
  destruct (ill_conditioned_2_spec hardClip_ADAA2 xn p1) as [[_ Hlt]|[-> _]].
  { revert Hlt. cbn [hardClip_ADAA2 ADAA_2.TOL]. R_ops. lra. }
  rewrite !calcD_linear by done. R_ops. field. lra.
Qed.

(** X12. In the linear region, on the ill-conditioned branch
    ([|x[n] - x[n-1]| < TOL]), the second-order processor returns
    [(3 x[n] + x[n-2]) / 4] when [(x[n-2] - x[n]) / 2 < TOL] (in particular
    whenever [x[n-2] <= x[n]], however far apart), and [(2 x[n] + x[n-2]) / 3]
    otherwise. *)
Theorem hardClip_ADAA2_linear_region_fallback (x : list R) (n : nat) (xn : R)
    (Hn : x !! n = Some xn)
    (Hxn : -1 < xn < 1)
    (Hp2 : -1 < ADAA_2.prev2 x n < 1)
    (Hd1 : Rabs (xn - ADAA_2.prev1 x n) < 1 / 100000) :
  (ADAA_2.process hardClip_ADAA2 x ≫= fun ys => ys !! n)
  = Some (if Rlt_dec ((ADAA_2.prev2 x n - xn) / 2) (1 / 100000)
          then (3 * xn + ADAA_2.prev2 x n) / 4
          else (2 * xn + ADAA_2.prev2 x n) / 3).
Proof.
  rewrite process_2_outputs. cbn [mbind option_bind].
  rewrite outputs_2_lookup, Hn. cbn [fmap option_fmap option_map]. f_equal.
  revert Hp2 Hd1.
  generalize (ADAA_2.prev1 x n) as p1, (ADAA_2.prev2 x n) as p2.
  intros p1 p2 Hp2 Hd1.
  unfold ADAA_2.sample.
  destruct (ill_conditioned_2_spec hardClip_ADAA2 xn p1) as [[-> _]|[_ Hge]].
  2:{ revert Hge. cbn [hardClip_ADAA2 ADAA_2.TOL]. R_ops. lra. }
  unfold ADAA_2.fallback.
  cbn [hardClip_ADAA2 ADAA_2.f ADAA_2.F1 ADAA_2.F2 ADAA_2.TOL]. R_ops.
  destruct (Rlt_dec ((p2 - xn) / 2) (1 / 100000)) as [Hlt|Hge].
  - rewrite Rltb_true by lra.
    destruct (hardClip_cases (((xn + p2) / 2 + xn) / 2))
      as [[? ->]|[[? ->]|[? ->]]]; lra.
  - rewrite Rltb_false by lra.
    destruct (hardClipAD1_cases ((xn + p2) / 2)) as [[? ->]|[[? ->]|[? ->]]];
      try lra.
    destruct (hardClipAD2_cases ((xn + p2) / 2)) as [[? ->]|[[? ->]|[? ->]]];
      try lra.
    destruct (hardClipAD2_cases xn) as [[? ->]|[[? ->]|[? ->]]]; try lra.
    field. lra.
Qed.
End SecondOrderReal.

(** ** One call or two *)

Section SplitBlock.
Context {A : Type} `{Num A}.

Lemma outputs_drop_1 (self : ADAA_1.t A) (p q : A) (zs : list A) :
  drop 1 (ADAA_1.outputs self p zs) = drop 1 (ADAA_1.outputs self q zs).
Proof. by destruct zs. Qed.

(** X13. Processing [xs ++ zs] in one call or [xs] and [zs] in two calls gives
    the same samples, except for the first sample of the second part, which
    the second call computes from the history [0.0] instead of the last
    sample of [xs]. *)
Theorem ADAA_1_split_block (self : ADAA_1.t A) (xs zs : list A) :
  exists ys1 ys2 ys : list A,
    ADAA_1.process self xs = Some ys1 /\
    ADAA_1.process self zs = Some ys2 /\
    ADAA_1.process self (xs ++ zs) = Some ys /\
    take (length xs) ys = ys1 /\
    drop (S (length xs)) ys = drop 1 ys2 /\
    (forall z : A, zs !! 0%nat = Some z ->
       ys !! length xs
       = Some (ADAA_1.sample self z (ADAA_1.prev xs (length xs))) /\
       ys2 !! 0%nat = Some (ADAA_1.sample self z (of_dec 0 0))).
Proof.
  exists (ADAA_1.outputs self (of_dec 0 0) xs),
         (ADAA_1.outputs self (of_dec 0 0) zs),
         (ADAA_1.outputs self (of_dec 0 0) (xs ++ zs)).
  rewrite !process_outputs, outputs_app.
  split; [done|]. split; [done|]. split; [done|].
  split; [|split].
  - rewrite <- (outputs_length self (of_dec 0 0) xs) at 1. apply take_app_length.
  - replace (S (length xs))
      with (length (ADAA_1.outputs self (of_dec 0 0) xs) + 1)%nat
      by (rewrite outputs_length; lia).
    rewrite <- drop_drop, drop_app_length. apply outputs_drop_1.
  - intros z Hz. destruct zs as [|z' zs]; [done|]. injection Hz as ->.
    split; [|done].
    rewrite lookup_app_r by (rewrite outputs_length; lia).
    rewrite outputs_length, Nat.sub_diag. cbn [ADAA_1.outputs lookup list_lookup].
    do 2 f_equal. unfold ADAA_1.prev.
    destruct xs as [|a xs _] using rev_ind; [done|].
    rewrite length_app, last_snoc. cbn [length]. rewrite Nat.add_1_r.
    by rewrite lookup_app_r, Nat.sub_diag by lia.
Qed.

(** X14. The second-order processor: one call on [xs ++ zs] and two calls on
    [xs] and [zs] agree on [xs] and from the third sample of [zs] on; only
    the first two samples of the second part see a different history. *)
Theorem ADAA_2_split_block (self : ADAA_2.t A) (xs zs : list A) :
  exists ys1 ys2 ys : list A,
    ADAA_2.process self xs = Some ys1 /\
    ADAA_2.process self zs = Some ys2 /\
    ADAA_2.process self (xs ++ zs) = Some ys /\
    take (length xs) ys = ys1 /\
    drop (2 + length xs) ys = drop 2 ys2.
Proof.
  exists (ADAA_2.outputs self xs), (ADAA_2.outputs self zs),
         (ADAA_2.outputs self (xs ++ zs)).
  rewrite !process_2_outputs.
  split; [done|]. split; [done|]. split; [done|].
  split; [apply outputs_2_prefix|].
  apply list_eq; intros i.
  rewrite !lookup_drop, !outputs_2_lookup.
  replace (2 + length xs + i)%nat with (length xs + (2 + i))%nat by lia.
  rewrite lookup_app_r, Nat.add_comm, Nat.add_sub by lia.
  destruct (zs !! (2 + i)%nat) as [z|]; [|done].
  cbn [fmap option_fmap option_map]. f_equal. f_equal.
  - replace (2 + i + length xs)%nat with (S (length xs + (1 + i)))%nat by lia.
    cbn [ADAA_2.prev1 Nat.add].
    rewrite lookup_app_r, Nat.add_comm, Nat.add_sub by lia. done.
  - replace (2 + i + length xs)%nat with (S (S (length xs + i)))%nat by lia.
    cbn [ADAA_2.prev2 Nat.add].
    rewrite lookup_app_r, Nat.add_comm, Nat.add_sub by lia. done.
Qed.

(** X15. After silence the split is seamless: when the first part ends with
    the sample [0.0] (first order), respectively with two samples [0.0]
    (second order), one call on the whole block returns the results of the
    two calls, concatenated. *)
Theorem split_after_silence (s1 : ADAA_1.t A) (s2 : ADAA_2.t A)
    (pre zs : list A) :
  ADAA_1.process s1 ((pre ++ [of_dec 0 0]) ++ zs)
  = (ys1 ← ADAA_1.process s1 (pre ++ [of_dec 0 0]);
     ys2 ← ADAA_1.process s1 zs;
     Some (ys1 ++ ys2)) /\
  ADAA_2.process s2 ((pre ++ [of_dec 0 0; of_dec 0 0]) ++ zs)
  = (ys1 ← ADAA_2.process s2 (pre ++ [of_dec 0 0; of_dec 0 0]);
     ys2 ← ADAA_2.process s2 zs;
     Some (ys1 ++ ys2)).
Proof.
  rewrite !process_outputs, !process_2_outputs. cbn [mbind option_bind].
  split; f_equal.
  - by rewrite outputs_app, last_snoc.
  - set (xs := pre ++ [of_dec 0 0; of_dec 0 0]).
    assert (Hlen : length xs = (length pre + 2)%nat)
      by (unfold xs; rewrite length_app; done).
    rewrite <- (take_drop (length xs) (ADAA_2.outputs s2 (xs ++ zs))).
    rewrite outputs_2_prefix. f_equal.
    apply list_eq; intros i.
    rewrite lookup_drop, !outputs_2_lookup.
    rewrite lookup_app_r, Nat.add_comm, Nat.add_sub by lia.
    destruct (zs !! i) as [z|] eqn:Hz; [|done].
    cbn [fmap option_fmap option_map]. f_equal.
    assert (H1 : ADAA_2.prev1 (xs ++ zs) (i + length xs) = ADAA_2.prev1 zs i).
    { destruct i as [|i].
      - rewrite Hlen. cbn [Nat.add]. rewrite Nat.add_comm. cbn [Nat.add ADAA_2.prev1].
        unfold xs. rewrite <- app_assoc.
        rewrite lookup_app_r by lia.
        replace (S (length pre) - length pre)%nat with 1%nat by lia. done.
      - cbn [Nat.add ADAA_2.prev1].
        by rewrite lookup_app_r, Nat.add_sub by lia. }
    assert (H2 : ADAA_2.prev2 (xs ++ zs) (i + length xs) = ADAA_2.prev2 zs i).
    { destruct i as [|[|i]].
      - rewrite Hlen. cbn [Nat.add]. rewrite Nat.add_comm. cbn [Nat.add ADAA_2.prev2].
        unfold xs. rewrite <- app_assoc.
        rewrite lookup_app_r by lia. rewrite Nat.sub_diag. done.
      - rewrite Hlen. cbn [Nat.add].
        replace (S (length pre + 2)) with (S (S (S (length pre)))) by lia.
        cbn [ADAA_2.prev2]. unfold xs. rewrite <- app_assoc.
        rewrite lookup_app_r by lia.
        replace (S (length pre) - length pre)%nat with 1%nat by lia. done.
      - cbn [Nat.add ADAA_2.prev2].
        by rewrite lookup_app_r, Nat.add_sub by lia. }
    by rewrite H1, H2.
Qed.
End SplitBlock.

(** ** The hard clipper in binary64 *)

(** X4. For every binary64 input, NaN and the infinities included, the hard
    clipper returns a number of magnitude at most 1 (never NaN: the
    comparison [<=] fails on NaN). *)
Theorem hardClip_binary64_bounded (x : PrimFloat.float) :
  PrimFloat.leb (PrimFloat.abs (hardClip x)) (of_int 1) = true.
Proof.
  unfold hardClip. cbn [nabs nltb flt_Num].
  destruct (PrimFloat.ltb (PrimFloat.abs x) (of_int 1)) eqn:E.
  - rewrite FloatAxioms.ltb_spec in E. rewrite FloatAxioms.leb_spec.
    unfold SpecFloat.SFltb in E. unfold SpecFloat.SFleb.
    by destruct (SpecFloat.SFcompare _ _) as [[]|].
  - unfold signum. cbn [nltb flt_Num].
    destruct (PrimFloat.ltb (of_int 0) x), (PrimFloat.ltb x (of_int 0));
      vm_compute; reflexivity.
Qed.

(** ** The tanh processor over the reals *)

Section TanhReal.
Local Open Scope R_scope.

Lemma cosh_positive (x : R) : 0 < cosh x.
Proof.
  unfold cosh. pose proof (exp_pos x). pose proof (exp_pos (- x)). lra.
Qed.

Lemma tanh_bounded (x : R) : -1 < tanh x < 1.
Proof.
  unfold tanh, sinh, cosh.
  pose proof (exp_pos x) as Hp. pose proof (exp_pos (- x)) as Hm.
  assert (Hc : 0 < (exp x + exp (- x)) / 2) by lra.
  split.
  - apply Rmult_lt_reg_r with ((exp x + exp (- x)) / 2); [exact Hc|].
    unfold Rdiv at 2. rewrite Rmult_assoc, Rinv_l by lra. lra.
  - apply Rmult_lt_reg_r with ((exp x + exp (- x)) / 2); [exact Hc|].
    unfold Rdiv at 1. rewrite Rmult_assoc, Rinv_l by lra. lra.
Qed.

Lemma tanh_AD1_derivative (x : R) : derivable_pt_lim tanh_AD1 x (tanh x).
Proof.
  unfold tanh_AD1, tanh.
  replace (sinh x / cosh x) with (/ cosh x * sinh x)
    by (field; pose proof (cosh_positive x); lra).
  apply (derivable_pt_lim_comp cosh ln).
  - apply derivable_pt_lim_cosh.
  - apply derivable_pt_lim_ln, cosh_positive.
Qed.

(** X16. [tanh_AD1] is an antiderivative of [tanh], and every output sample of
    [tanh_ADAA1] (default tolerance) lies strictly between -1 and 1. *)
Theorem tanh_ADAA1_bounded (x ys : list R) (n : nat) (yn : R)
    (Hys : ADAA_1.process tanh_ADAA1 x = Some ys)
    (Hyn : ys !! n = Some yn) :
  (forall t : R, derivable_pt_lim tanh_AD1 t (tanh t)) /\ -1 < yn < 1.
Proof.
  split; [exact tanh_AD1_derivative|].
  assert (E : ys = ADAA_1.outputs tanh_ADAA1 (of_dec 0 0) x)
    by (rewrite process_outputs in Hys; congruence).
  subst ys. rewrite outputs_lookup_prev in Hyn.
  destruct (x !! n) as [xn|]; [|done]. injection Hyn as <-.
  destruct (sample_1_mean_value tanh_ADAA1 xn (ADAA_1.prev x n))
    as (c & _ & ->).
  - exact tanh_AD1_derivative.
  - cbn. lra.
  - apply tanh_bounded.
Qed.
End TanhReal.

(** ** The constant of integration, and monotone nonlinearities *)

Section AntiderivativeChoice.
Local Open Scope R_scope.

Lemma hardClip_monotone (a b : R) : a <= b -> hardClip a <= hardClip b.
Proof.
  intros Hab.
  destruct (hardClip_cases a) as [[? ->]|[[? ->]|[? ->]]];
    destruct (hardClip_cases b) as [[? ->]|[[? ->]|[? ->]]]; lra.
Qed.

(** X17. Only differences of the antiderivatives matter.  The first-order
    processor returns the same block when a constant [k] is added to [F1].
    With a positive tolerance the second-order processor returns the same
    sample [n] when [F1] is replaced by [F1 + k] and [F2] by [F2 + k t + c],
    wherever that sample is well conditioned: the ill-conditioned branch is
    taken, or [x[n] - x[n-2]] reaches the tolerance. *)
Theorem integration_constants_cancel (s1 : ADAA_1.t R) (s2 : ADAA_2.t R)
    (k c : R) (x : list R) (n : nat) (xn : R)
    (Htol : 0 < ADAA_2.TOL s2)
    (Hn : x !! n = Some xn)
    (Hwell : Rabs (xn - ADAA_2.prev1 x n) < ADAA_2.TOL s2
             \/ ADAA_2.TOL s2 <= Rabs (xn - ADAA_2.prev2 x n)) :
  ADAA_1.process
    (ADAA_1.new (ADAA_1.f s1) (fun t => ADAA_1.F1 s1 t + k) (ADAA_1.TOL s1)) x
  = ADAA_1.process s1 x /\
  (ADAA_2.process
     (ADAA_2.new (ADAA_2.f s2) (fun t => ADAA_2.F1 s2 t + k)
        (fun t => ADAA_2.F2 s2 t + k * t + c) (ADAA_2.TOL s2)) x
     ≫= fun ys => ys !! n)
  = (ADAA_2.process s2 x ≫= fun ys => ys !! n).
Proof.
  split.
  - clear Hn Hwell. rewrite !process_outputs. f_equal.
    generalize (of_dec (A := R) 0 0) as p.
    induction x as [|a x IH]; intros p; [done|].
    cbn [ADAA_1.outputs]. rewrite IH. f_equal.
    unfold ADAA_1.sample, ADAA_1.ill_conditioned.
    cbn [ADAA_1.f ADAA_1.F1 ADAA_1.TOL]. R_ops.
    destruct (Rltb (Rabs (a - p)) (ADAA_1.TOL s1)); [done|].
    f_equal. lra.
  - set (s2' := ADAA_2.new _ _ _ _).
    assert (HD : forall a b : R,
               ADAA_2.calcD s2' a b = ADAA_2.calcD s2 a b + k).
    { intros a b. unfold ADAA_2.calcD, s2'.
      cbn [ADAA_2.F1 ADAA_2.F2 ADAA_2.TOL]. R_ops. unfold Rltb.
      destruct (Rlt_dec _ _) as [|Hge]; [done|].
      assert (a <> b).
      { intros ->. apply Hge. replace (b - b) with 0 by lra.
        by rewrite Rabs_R0. }
      field. lra. }
    assert (HF : forall a b : R,
               ADAA_2.fallback s2' a b = ADAA_2.fallback s2 a b).
    { intros a b. unfold ADAA_2.fallback, s2'.
      cbn [ADAA_2.f ADAA_2.F1 ADAA_2.F2 ADAA_2.TOL]. R_ops. unfold Rltb.
      destruct (Rlt_dec _ _) as [|Hge]; [done|].
      field. lra. }
    rewrite !process_2_outputs. cbn [mbind option_bind].
    rewrite !outputs_2_lookup, Hn. cbn [fmap option_fmap option_map]. f_equal.
    revert Hwell.
    generalize (ADAA_2.prev1 x n) as p1, (ADAA_2.prev2 x n) as p2.
    intros p1 p2 Hwell.
    unfold ADAA_2.sample. rewrite HF, !HD.
    replace (ADAA_2.ill_conditioned s2' xn p1)
      with (ADAA_2.ill_conditioned s2 xn p1) by done.
    destruct (ill_conditioned_2_spec s2 xn p1) as [[-> _]|[-> Hge]]; [done|].
    assert (Hne : xn - p2 <> 0).
    { destruct Hwell as [Hlt|Hout]; [lra|].
      intros E. rewrite E, Rabs_R0 in Hout. lra. }
    R_ops. field. exact Hne.
Qed.

(** X18. No overshoot: when [F1] is an antiderivative of a nondecreasing
    [f] and the tolerance is positive, every output sample of the
    first-order processor lies between [f(x[n-1])] and [f(x[n])]
    ([x[n-1] = 0] for [n = 0]). *)
Theorem ADAA_1_no_overshoot (self : ADAA_1.t R) (x : list R) (n : nat)
    (xn yn : R)
    (Hd : forall t : R, derivable_pt_lim (ADAA_1.F1 self) t (ADAA_1.f self t))
    (Hmono : forall a b : R, a <= b -> ADAA_1.f self a <= ADAA_1.f self b)
    (Htol : 0 < ADAA_1.TOL self)
    (Hn : x !! n = Some xn)
    (Hyn : (ADAA_1.process self x ≫= fun ys => ys !! n) = Some yn) :
  Rmin (ADAA_1.f self (ADAA_1.prev x n)) (ADAA_1.f self xn) <= yn
  <= Rmax (ADAA_1.f self (ADAA_1.prev x n)) (ADAA_1.f self xn).
Proof.
  rewrite process_outputs in Hyn. cbn [mbind option_bind] in Hyn.
  rewrite outputs_lookup_prev, Hn in Hyn. injection Hyn as <-.
  destruct (sample_1_mean_value self xn (ADAA_1.prev x n) Hd Htol)
    as (c & Hin & ->).
  revert Hin. generalize (ADAA_1.prev x n) as p; intros p.
  unfold Rmin, Rmax. destruct (Rle_dec p xn) as [Hle|Hgt]; intros [Hlo Hhi].
  - pose proof (Hmono p c Hlo). pose proof (Hmono c xn Hhi).
    destruct (Rle_dec (ADAA_1.f self p) (ADAA_1.f self xn)); lra.
  - pose proof (Hmono xn c Hlo). pose proof (Hmono c p Hhi).
    destruct (Rle_dec (ADAA_1.f self p) (ADAA_1.f self xn)); lra.
Qed.
End AntiderivativeChoice.

(** ** Instances of the hypotheses *)

Section Instances.
Local Open Scope R_scope.

Lemma hardClip_ADAA_tolerance : 0 < ADAA_1.TOL (A := R) hardClip_ADAA.
Proof. cbn. lra. Qed.

Lemma hardClip_ADAA2_tolerance : 0 < ADAA_2.TOL (A := R) hardClip_ADAA2.
Proof. cbn. lra. Qed.

(** The block [[0, 2, 2]], sample 1. *)
Lemma ADAA_1_output_is_value_between_samples_witness :
  0 < ADAA_1.TOL (A := R) hardClip_ADAA /\
  [0; 2; 2] !! 1%nat = Some 2 /\
  exists c : R,
    Rmin (ADAA_1.prev [0; 2; 2] 1) 2 <= c <= Rmax (ADAA_1.prev [0; 2; 2] 1) 2 /\
    (ADAA_1.process hardClip_ADAA [0; 2; 2] ≫= fun ys => ys !! 1%nat)
    = Some (hardClip c).
Proof.
  split; [exact hardClip_ADAA_tolerance|]. split; [reflexivity|].
  exact (ADAA_1_output_is_value_between_samples hardClip_ADAA [0; 2; 2] 1 2
           (fun t => increment_bound_derivative _ _ _ (hardClipAD1_increment t))
           hardClip_ADAA_tolerance eq_refl).
Defined.

Lemma hardClip_ADAA_bounded_witness :
  ADAA_1.process (A := R) hardClip_ADAA [0; 2; 2]
  = Some (ADAA_1.outputs hardClip_ADAA (of_dec 0 0) [0; 2; 2]) /\
  ADAA_1.outputs hardClip_ADAA (of_dec 0 0) [0; 2; 2] !! 1%nat
  = Some (ADAA_1.sample hardClip_ADAA 2 0) /\
  -1 <= ADAA_1.sample hardClip_ADAA 2 0 <= 1.
Proof.
  split; [apply process_outputs|]. split; [reflexivity|].
  exact (hardClip_ADAA_bounded [0; 2; 2] _ 1 _ (process_outputs _ _) eq_refl).
Defined.

(** The block [[0, 1/2]], sample 1. *)
Lemma hardClip_ADAA_linear_region_witness :
  [0; 1 / 2] !! 1%nat = Some (1 / 2) /\
  -1 < 1 / 2 < 1 /\
  -1 < ADAA_1.prev [0; 1 / 2] 1 < 1 /\
  (ADAA_1.process hardClip_ADAA [0; 1 / 2] ≫= fun ys => ys !! 1%nat)
  = Some ((1 / 2 + ADAA_1.prev [0; 1 / 2] 1) / 2).
Proof.
  assert (H1 : -1 < 1 / 2 < 1) by lra.
  assert (H2 : -1 < ADAA_1.prev [0; 1 / 2] 1 < 1) by (cbn; lra).
  split; [reflexivity|]. split; [exact H1|]. split; [exact H2|].
  exact (hardClip_ADAA_linear_region [0; 1 / 2] 1 (1 / 2) eq_refl H1 H2).
Defined.

Lemma ADAA_1_odd_symmetry_witness :
  0 < ADAA_1.TOL (A := R) hardClip_ADAA /\
  ADAA_1.process hardClip_ADAA (Ropp <$> [0; 2; 2])
  = (fun ys : list R => Ropp <$> ys) <$> ADAA_1.process hardClip_ADAA [0; 2; 2].
Proof.
  split; [exact hardClip_ADAA_tolerance|].
  exact (ADAA_1_odd_symmetry hardClip_ADAA [0; 2; 2] hardClip_ADAA_tolerance
           (fun t => proj1 (hardClip_parity t))
           (fun t => proj1 (proj2 (hardClip_parity t)))).
Defined.

(** The block [[0, 2]], sample 1: the division by [2 - 0]. *)
Lemma ADAA_1_denominators_nonzero_witness :
  0 < ADAA_1.TOL (A := R) hardClip_ADAA /\
  2 - 0 ∈ denominators_1 (A := R) hardClip_ADAA [0; 2] 1 /\
  2 - 0 <> 0.
Proof.
  assert (Hd : 2 - 0 ∈ denominators_1 (A := R) hardClip_ADAA [0; 2] 1).
  { rewrite (denominators_1_lookup hardClip_ADAA [0; 2] 1 2 eq_refl).
    unfold ADAA_1.ill_conditioned, hardClip_ADAA.
    cbn [ADAA_1.TOL ADAA_1.prev lookup list_lookup default from_option].
    unfold Datatypes.id. R_ops. R_tests. apply list_elem_of_singleton. done. }
  split; [exact hardClip_ADAA_tolerance|]. split; [exact Hd|].
  exact (proj1 (ADAA_1_denominators_nonzero hardClip_ADAA [0; 2] 1 (2 - 0)
                  hardClip_ADAA_tolerance Hd)).
Defined.

(** The block [[1, 0]], sample 1: [x[1]] equals the initial [x2]. *)
Lemma ADAA_2_zero_denominator_iff_witness :
  0 < ADAA_2.TOL (A := R) hardClip_ADAA2 /\
  [1; 0] !! 1%nat = Some 0 /\
  (0 ∈ denominators_2 (A := R) hardClip_ADAA2 [1; 0] 1
   <-> (ADAA_2.TOL hardClip_ADAA2 <= Rabs (0 - ADAA_2.prev1 [1; 0] 1)
        /\ 0 = ADAA_2.prev2 [1; 0] 1)).
Proof.
  split; [exact hardClip_ADAA2_tolerance|]. split; [reflexivity|].
  exact (ADAA_2_zero_denominator_iff hardClip_ADAA2 [1; 0] 1 0
           hardClip_ADAA2_tolerance eq_refl).
Defined.

(** The block [[1/10, 2/10, 4/10]], sample 2. *)
Lemma hardClip_ADAA2_linear_region_witness :
  [1 / 10; 2 / 10; 4 / 10] !! 2%nat = Some (4 / 10) /\
  (ADAA_2.process hardClip_ADAA2 [1 / 10; 2 / 10; 4 / 10]
     ≫= fun ys => ys !! 2%nat)
  = Some ((4 / 10 + ADAA_2.prev1 [1 / 10; 2 / 10; 4 / 10] 2
           + ADAA_2.prev2 [1 / 10; 2 / 10; 4 / 10] 2) / 3).
Proof.
  split; [reflexivity|].
  apply (hardClip_ADAA2_linear_region [1 / 10; 2 / 10; 4 / 10] 2 (4 / 10) eq_refl).
  - lra.
  - cbn. lra.
  - cbn. lra.
  - cbn. unfold Datatypes.id, Rabs. destruct (Rcase_abs _); lra.
  - cbn. unfold Datatypes.id, Rabs. destruct (Rcase_abs _); lra.
  - cbn. unfold Datatypes.id, Rabs. destruct (Rcase_abs _); lra.
Defined.

(** The block [[5/10, 2/10, 2/10]], sample 2. *)
Lemma hardClip_ADAA2_linear_region_fallback_witness :
  [5 / 10; 2 / 10; 2 / 10] !! 2%nat = Some (2 / 10) /\
  (ADAA_2.process hardClip_ADAA2 [5 / 10; 2 / 10; 2 / 10]
     ≫= fun ys => ys !! 2%nat)
  = Some (if Rlt_dec ((ADAA_2.prev2 [5 / 10; 2 / 10; 2 / 10] 2 - 2 / 10) / 2)
                (1 / 100000)
          then (3 * (2 / 10) + ADAA_2.prev2 [5 / 10; 2 / 10; 2 / 10] 2) / 4
          else (2 * (2 / 10) + ADAA_2.prev2 [5 / 10; 2 / 10; 2 / 10] 2) / 3).
Proof.
  split; [reflexivity|].
  apply (hardClip_ADAA2_linear_region_fallback [5 / 10; 2 / 10; 2 / 10] 2
           (2 / 10) eq_refl).
  - lra.
  - cbn. lra.
  - cbn. unfold Datatypes.id, Rabs. destruct (Rcase_abs _); lra.
Defined.

Lemma tanh_ADAA1_bounded_witness :
  ADAA_1.process tanh_ADAA1 [0; 2; 2]
  = Some (ADAA_1.outputs tanh_ADAA1 (of_dec 0 0) [0; 2; 2]) /\
  ADAA_1.outputs tanh_ADAA1 (of_dec 0 0) [0; 2; 2] !! 1%nat
  = Some (ADAA_1.sample tanh_ADAA1 2 0) /\
  -1 < ADAA_1.sample tanh_ADAA1 2 0 < 1.
Proof.
  split; [apply process_outputs|]. split; [reflexivity|].
  exact (proj2 (tanh_ADAA1_bounded [0; 2; 2] _ 1 _ (process_outputs _ _) eq_refl)).
Defined.
Lemma integration_constants_cancel_witness :
  0 < ADAA_2.TOL (A := R) hardClip_ADAA2 /\
  [0; 2; 2] !! 1%nat = Some 2 /\
  ADAA_2.TOL hardClip_ADAA2 <= Rabs (2 - ADAA_2.prev2 [0; 2; 2] 1) /\
  (ADAA_2.process
     (ADAA_2.new hardClip (fun t => hardClipAD1 t + 1 / 2)
        (fun t => hardClipAD2 t + 1 / 2 * t + 3) (ADAA_2.TOL hardClip_ADAA2))
     [0; 2; 2] ≫= fun ys => ys !! 1%nat)
  = (ADAA_2.process hardClip_ADAA2 [0; 2; 2] ≫= fun ys => ys !! 1%nat).
Proof.
  assert (Hout : ADAA_2.TOL (A := R) hardClip_ADAA2
                 <= Rabs (2 - ADAA_2.prev2 [0; 2; 2] 1)).
  { cbn. unfold Rabs. destruct (Rcase_abs _); lra. }
  split; [exact hardClip_ADAA2_tolerance|]. split; [reflexivity|].
  split; [exact Hout|].
  exact (proj2 (integration_constants_cancel hardClip_ADAA hardClip_ADAA2
                  (1 / 2) 3 [0; 2; 2] 1 2 hardClip_ADAA2_tolerance eq_refl
                  (or_intror Hout))).
Defined.

(** The block [[0, 2, 2]], sample 1: the output lies between [f(0)] and
    [f(2)]. *)
Lemma ADAA_1_no_overshoot_witness :
  0 < ADAA_1.TOL (A := R) hardClip_ADAA /\
  [0; 2; 2] !! 1%nat = Some 2 /\
  (ADAA_1.process hardClip_ADAA [0; 2; 2] ≫= fun ys => ys !! 1%nat)
  = Some (ADAA_1.sample hardClip_ADAA 2 0) /\
  Rmin (hardClip (ADAA_1.prev [0; 2; 2] 1)) (hardClip 2)
  <= ADAA_1.sample hardClip_ADAA 2 0
  <= Rmax (hardClip (ADAA_1.prev [0; 2; 2] 1)) (hardClip 2).
Proof.
  assert (Hy : (ADAA_1.process (A := R) hardClip_ADAA [0; 2; 2]
                  ≫= fun ys => ys !! 1%nat)
               = Some (ADAA_1.sample hardClip_ADAA 2 0))
    by (rewrite process_outputs; reflexivity).
  split; [exact hardClip_ADAA_tolerance|]. split; [reflexivity|].
  split; [exact Hy|].
  exact (ADAA_1_no_overshoot hardClip_ADAA [0; 2; 2] 1 2 _
           (fun t => increment_bound_derivative _ _ _ (hardClipAD1_increment t))
           hardClip_monotone hardClip_ADAA_tolerance eq_refl Hy).
Defined.
End Instances.
